(** * The Thermos configuration loader

    A shallow embedding of [src/python/twitter/thermos/config/loader.py]:
    the process scanner [ThermosProcessWrapper], the task wrapper
    [ThermosTaskWrapper] and the loader [ThermosConfigLoader].

    The loader is glue over libraries: [re] (one pattern), pystachio ([Ref],
    and the [bind]/[check]/[interpolate]/[get] methods of schema objects),
    [json], and, for files, [safe_open] of [twitter.common.dirutil] over
    [os.makedirs] and [os.path].  [re], pystachio's [Ref] and the file
    functions are modelled directly, the latter over a file system that is
    a tree of directories.  The schema objects and [json] are an interface
    ([Library]); the loader is written against that interface, and a small
    executable instance ([Reference]) is used to run it on concrete
    documents. *)

From Stdlib Require Import Ascii String ZArith DecimalString.
From stdpp Require Import base option list strings gmap sorting.

Open Scope string_scope.
Open Scope list_scope.

(** ** Exceptions and results *)

(** The error numbers of the system calls on files. *)
Inductive errno := EEXIST | ENOENT | ENOTDIR | EISDIR | EACCES.

#[global] Instance errno_eq_dec : EqDecision errno.
Proof. solve_decision. Defined.

(** The exceptions the modelled code can raise.  All of them derive from
    Python's [Exception].  [open] fails with [IOError], [os.mkdir] with
    [OSError], which carries the error number. *)
Inductive exn :=
| AssertionError (msg : string)
| InvalidTask (msg : string)
| InvalidProcess (msg : string)
| InvalidRefError (msg : string)
| IndexError
| IOError (path : string)
| OSError (code : errno) (path : string)
| ValueError (msg : string)
| TypeError (msg : string)
| SyntaxError (msg : string)
| RuntimeError (msg : string).

(** Outcome of a call: a returned value or a raised exception. *)
Inductive result (A : Type) :=
| Ok (a : A)
| Raise (e : exn).
Arguments Ok {A} a.
Arguments Raise {A} e.

#[global] Instance result_ret : MRet result := @Ok.
#[global] Instance result_bind : MBind result := fun A B f r =>
  match r with
  | Ok a => f a
  | Raise e => Raise e
  end.
#[global] Instance result_fmap : FMap result := fun A B f r =>
  match r with
  | Ok a => Ok (f a)
  | Raise e => Raise e
  end.

(** [try: body except Exception as e: handler].  Every modelled exception
    is an [Exception], so the handler sees all of them. *)
Definition try_except {A} (body : result A) (handler : exn -> result A) : result A :=
  match body with
  | Ok a => Ok a
  | Raise e => handler e
  end.

(** [assert cond, msg] *)
Definition assert_ (cond : bool) (msg : string) : result unit :=
  if cond then Ok tt else Raise (AssertionError msg).

Definition returns {A} (r : result A) : Prop := exists a, r = Ok a.
Definition raises {A} (r : result A) : Prop := exists e, r = Raise e.

(** ** The fragment of [re] used by [VALID_PROCESS_NAME_RE] *)

Inductive regex :=
| Bol                         (* ^ *)
| Eol                         (* $ *)
| NotChar (c : ascii)         (* [^c] *)
| Plus (r : regex)            (* r+ *)
| Seq (r1 r2 : regex).

Definition newline : ascii := ascii_of_nat 10.

(** Without [re.MULTILINE], [$] matches at the end of the string and just
    before a newline that ends the string. *)
Definition at_eol (s : string) : bool :=
  match s with
  | EmptyString => true
  | String a EmptyString => bool_decide (a = newline)
  | _ => false
  end.

(** One or more repetitions of [step], then [k]: after each repetition the
    longer match is tried first (greedy), then stopping here.  A repetition
    that consumed nothing is not repeated. *)
Fixpoint re_plus (step : bool -> string -> (bool -> string -> bool) -> bool)
    (k : bool -> string -> bool) (fuel : nat) (bol : bool) (s : string) : bool :=
  step bol s (fun b' s' =>
    match fuel with
    | S f =>
        (if (String.length s' <? String.length s)%nat then re_plus step k f b' s' else false)
        || k b' s'
    | O => k b' s'
    end).

(** Backtracking matcher in continuation-passing style.  [bol] tells whether
    the current position is the start of the subject, [s] is the rest of the
    subject, [k] matches what follows. *)
Fixpoint re_run (r : regex) (bol : bool) (s : string)
    (k : bool -> string -> bool) : bool :=
  match r with
  | Bol => bol && k bol s
  | Eol => at_eol s && k bol s
  | NotChar c =>
      match s with
      | EmptyString => false
      | String a s' => if bool_decide (a = c) then false else k false s'
      end
  | Seq r1 r2 => re_run r1 bol s (fun b' s' => re_run r2 b' s' k)
  | Plus r1 => re_plus (re_run r1) k (String.length s) bol s
  end.

(** [pattern.match(s)]: anchored at the start of [s]; the result is used for
    its truth value only. *)
Definition re_match (r : regex) (s : string) : bool :=
  re_run r true s (fun _ _ => true).

(** Whether the character [c] occurs in [s]. *)
Fixpoint occurs (c : ascii) (s : string) : bool :=
  match s with
  | EmptyString => false
  | String a s' => bool_decide (a = c) || occurs c s'
  end.

(** ** pystachio references *)

(** [Ref.Index] prints as [[value]], [Ref.Dereference] as [.value]. *)
Inductive Component :=
| Index (value : string)
| Dereference (value : string).

#[global] Instance Component_eq_dec : EqDecision Component.
Proof. solve_decision. Defined.

Definition value (c : Component) : string :=
  match c with
  | Index v => v
  | Dereference v => v
  end.

Record Ref := mkRef { components : list Component }.

#[global] Instance Ref_eq_dec : EqDecision Ref.
Proof. solve_decision. Defined.

Definition is_digit (a : ascii) : bool :=
  let n := nat_of_ascii a in ((48 <=? n) && (n <=? 57))%nat.
Definition is_alpha (a : ascii) : bool :=
  let n := nat_of_ascii a in
  (((65 <=? n) && (n <=? 90)) || ((97 <=? n) && (n <=? 122)))%nat.
(** [\w] *)
Definition is_word (a : ascii) : bool :=
  is_alpha a || is_digit a || bool_decide (a = "_"%char).
(** [[^\d\W]]: a word character that is not a digit *)
Definition is_name_start (a : ascii) : bool :=
  is_alpha a || bool_decide (a = "_"%char).
(** [[\w\-\./]] *)
Definition is_index_char (a : ascii) : bool :=
  is_word a || bool_decide (a = "-"%char) || bool_decide (a = "."%char)
  || bool_decide (a = "/"%char).

(** Longest prefix of [s] whose characters satisfy [p], and the rest. *)
Fixpoint span (p : ascii -> bool) (s : string) : string * string :=
  match s with
  | EmptyString => (EmptyString, EmptyString)
  | String a s' =>
      if p a then let '(w, rest) := span p s' in (String a w, rest)
      else (EmptyString, s)
  end.

(** [Ref.split_components]: the address is a sequence of [.name] and
    [[index]] components with nothing in between. *)
Fixpoint split_components (fuel : nat) (address : string) : option (list Component) :=
  match address with
  | EmptyString => Some []
  | String a s =>
      match fuel with
      | O => None
      | S fuel' =>
          if bool_decide (a = "."%char) then
            match s with
            | String b _ =>
                if is_name_start b then
                  let '(name, rest) := span is_word s in
                  cs ← split_components fuel' rest; Some (Dereference name :: cs)
                else None
            | EmptyString => None
            end
          else if bool_decide (a = "["%char) then
            let '(idx, rest) := span is_index_char s in
            match idx, rest with
            | String _ _, String c rest' =>
                if bool_decide (c = "]"%char) then
                  cs ← split_components fuel' rest'; Some (Index idx :: cs)
                else None
            | _, _ => None
            end
          else None
      end
  end.

(** [Ref.from_address] *)
Definition from_address (address : string) : result Ref :=
  match address with
  | EmptyString => Raise (InvalidRefError "Invalid address")
  | String a _ =>
      let full :=
        if bool_decide (a = "["%char) || bool_decide (a = "."%char) then Some address
        else if is_name_start a then Some (String "."%char address)
        else None in
      match full ≫= (fun s => split_components (String.length s) s) with
      | Some cs => Ok (mkRef cs)
      | None => Raise (InvalidRefError address)
      end
  end.

(** [Ref.action]: the first component. *)
Definition action (r : Ref) : result Component :=
  match components r with
  | c :: _ => Ok c
  | [] => Raise IndexError
  end.

(** [Ref.is_index]: [isinstance(self.action(), Ref.Index)] *)
Definition is_index (r : Ref) : result bool :=
  c ← action r;
  Ok (match c with Index _ => true | Dereference _ => false end).

(** [self.scoped_to(ref)], that is [Ref.subscope(self, ref)]: when the
    components of [self] are a proper prefix of those of [ref], what is left
    of [ref]; otherwise [None]. *)
Definition scoped_to (self ref : Ref) : option Ref :=
  let rc := components self in
  let sc := components ref in
  if bool_decide (rc = take (length rc) sc) then
    if (length rc <? length sc)%nat then Some (mkRef (drop (length rc) sc))
    else None
  else None.


(** ** The library interface *)

(** [TypeCheck], the result of [check()]. *)
Record TypeCheck := mkTypeCheck { ok : bool; message : string }.

(** What [loader.py] calls on schema objects and on [json].  [Task] is the
    [Task] struct of [twitter.thermos.config.schema], [Process] its process
    struct, [Binding] one positional argument of [bind], and [Document] the
    plain data [get()] returns and [json] reads and writes. *)
Class Library := {
  Task : Type;
  Process : Type;
  Binding : Type;
  Document : Type;
  bind : Task -> list Binding -> Task;               (* task.bind( *bindings ) *)
  check : Task -> TypeCheck;                         (* task.check() *)
  interpolate : Task -> Task * list Ref;             (* task.interpolate() *)
  has_processes : Task -> bool;                      (* task.has_processes() *)
  processes : Task -> list Process;                  (* task.processes() *)
  get : Task -> Document;                            (* task.get() *)
  Task_ : Document -> result Task;                   (* Task(js) *)
  process_interpolate : Process -> Process * list Ref;
  json_dumps : Document -> string;                   (* json.dumps / json.dump *)
  json_loads : string -> result Document             (* json.load *)
}.

(** Facts about the two libraries.  [json.load] reads back the raw data of
    a task as [json.dump] wrote it.  [Task] accepts the raw data of a task
    that type-checks, interpolated with nothing left unbound.  Such data is
    interpolated already: interpolating the task built from it leaves it as
    it is.  And [check()] judges the interpolated data: it gives the same
    verdict on two tasks that interpolate to the same raw data. *)
Class LibraryLaws `{Library} : Prop := {
  json_loads_dumps : forall t : Task, json_loads (json_dumps (get t)) = Ok (get t);
  Task_interpolated : forall t ti : Task,
    ok (check t) = true -> interpolate t = (ti, []) -> returns (Task_ (get ti));
  interpolate_interpolated : forall t ti t' : Task,
    interpolate t = (ti, []) -> Task_ (get ti) = Ok t' ->
    get (fst (interpolate t')) = get ti;
  check_interpolated : forall t t' : Task,
    get (fst (interpolate t)) = get (fst (interpolate t')) ->
    ok (check t) = ok (check t')
}.

(** ** Files *)

(** The file system is a tree: a directory maps names to nodes.  A node is
    a regular file with its contents, a file the process may not open, or a
    directory.  There are no symbolic links, and every directory may be
    searched and written. *)
#[local] Set Warnings "-register-all".
Inductive node :=
| RegularFile (contents : string)
| NoAccess
| Directory (entries : gmap string node).

(** The entries of the root directory, and the working directory as the
    names that lead to it from the root. *)
Record filesystem := mkFs {
  root : gmap string node;
  cwd : list string
}.

(** The node that [path] leads to from [n]. *)
Fixpoint descend (n : node) (path : list string) : option node :=
  match path with
  | [] => Some n
  | name :: path' =>
      match n with
      | Directory entries => entries !! name ≫= (fun child => descend child path')
      | _ => None
      end
  end.

(** [n] with [new] at [path]; the directory that is to hold it must be
    there. *)
Fixpoint place (n : node) (path : list string) (new : node) : node :=
  match path with
  | [] => new
  | name :: path' =>
      match n with
      | Directory entries =>
          match path' with
          | [] => Directory (<[name := new]> entries)
          | _ :: _ =>
              match entries !! name with
              | Some child => Directory (<[name := place child path' new]> entries)
              | None => n
              end
          end
      | _ => n
      end
  end.

Definition tree (fs : filesystem) : node := Directory (root fs).

Definition node_at (fs : filesystem) (path : list string) : option node :=
  descend (tree fs) path.

Definition set_at (fs : filesystem) (path : list string) (new : node) : filesystem :=
  match place (tree fs) path new with
  | Directory entries => mkFs entries (cwd fs)
  | _ => fs
  end.

Definition is_dir (o : option node) : bool :=
  match o with
  | Some (Directory _) => true
  | _ => false
  end.

Definition starts_with_slash (p : string) : bool :=
  match p with
  | String a _ => bool_decide (a = "/"%char)
  | EmptyString => false
  end.

Fixpoint ends_with_slash (p : string) : bool :=
  match p with
  | EmptyString => false
  | String a EmptyString => bool_decide (a = "/"%char)
  | String _ s => ends_with_slash s
  end.

(** The names in a path: its maximal runs of characters other than [/]. *)
Fixpoint names (p : string) : list string :=
  match p with
  | EmptyString => []
  | String a s =>
      if bool_decide (a = "/"%char) then names s
      else if starts_with_slash s then String a EmptyString :: names s
      else match names s with
           | n :: ns => String a n :: ns
           | [] => [String a EmptyString]
           end
  end.

(** One name further from the directory [cur]. *)
Definition step (cur : list string) (name : string) : list string :=
  if bool_decide (name = ".") then cur
  else if bool_decide (name = "..") then removelast cur
  else cur ++ [name].

(** Path resolution: every name is looked up in a directory that is
    there.  What the last name leads to need not exist. *)
Fixpoint walk (fs : filesystem) (cur : list string) (ns : list string)
    : errno + list string :=
  match ns with
  | [] => inr cur
  | name :: ns' =>
      match node_at fs cur with
      | Some (Directory _) => walk fs (step cur name) ns'
      | Some _ => inl ENOTDIR
      | None => inl ENOENT
      end
  end.

(** Where the kernel looks for [p]: from the root for an absolute path, else
    from the working directory.  The empty path names nothing.  With
    [slash], a path that ends in [/] must lead to a directory. *)
Definition lookup_path (fs : filesystem) (p : string) (slash : bool)
    : errno + list string :=
  match p with
  | EmptyString => inl ENOENT
  | _ =>
      walk fs (if starts_with_slash p then [] else cwd fs)
        (names p ++ if slash && ends_with_slash p then ["."] else [])
  end.

(** [os.path.exists(p)]: [os.stat(p)] succeeds. *)
Definition exists_ (fs : filesystem) (p : string) : bool :=
  match lookup_path fs p true with
  | inr q => bool_decide (is_Some (node_at fs q))
  | inl _ => false
  end.

(** [os.mkdir(p)] *)
Definition mkdir (fs : filesystem) (p : string) : result filesystem :=
  match lookup_path fs p false with
  | inr q =>
      match node_at fs q with
      | Some _ => Raise (OSError EEXIST p)
      | None => Ok (set_at fs q (Directory ∅))
      end
  | inl e => Raise (OSError e p)
  end.

(** [open(filename).read()] *)
Definition read_file (fs : filesystem) (filename : string) : result string :=
  match lookup_path fs filename true with
  | inr q =>
      match node_at fs q with
      | Some (RegularFile contents) => Ok contents
      | _ => Raise (IOError filename)
      end
  | inl _ => Raise (IOError filename)
  end.

(** [open(filename, 'w')], writing [contents], and closing the file. *)
Definition write_file (fs : filesystem) (filename contents : string)
    : result filesystem :=
  match lookup_path fs filename true with
  | inr q =>
      match node_at fs q with
      | Some (RegularFile _) | None => Ok (set_at fs q (RegularFile contents))
      | Some _ => Raise (IOError filename)
      end
  | inl _ => Raise (IOError filename)
  end.

(** *** posixpath *)

(** [p[:i]] and [p[i:]] for [i = p.rfind('/') + 1]. *)
Fixpoint rpartition (p : string) : string * string :=
  match p with
  | EmptyString => (EmptyString, EmptyString)
  | String a s =>
      if occurs "/" s then let '(head, tail) := rpartition s in (String a head, tail)
      else if bool_decide (a = "/"%char) then (String a EmptyString, s)
      else (EmptyString, String a s)
  end.

(** [s.rstrip('/')] *)
Fixpoint rstrip (s : string) : string :=
  match s with
  | EmptyString => EmptyString
  | String a s' =>
      match rstrip s' with
      | EmptyString =>
          if bool_decide (a = "/"%char) then EmptyString else String a EmptyString
      | r => String a r
      end
  end.

(** [s == '/' * len(s)] *)
Fixpoint all_slashes (s : string) : bool :=
  match s with
  | EmptyString => true
  | String a s' => bool_decide (a = "/"%char) && all_slashes s'
  end.

Definition nonempty (s : string) : bool :=
  match s with
  | EmptyString => false
  | String _ _ => true
  end.

(** [os.path.split(p)] *)
Definition split (p : string) : string * string :=
  let '(head, tail) := rpartition p in
  (if nonempty head && negb (all_slashes head) then rstrip head else head, tail).

(** [os.path.dirname(p)] *)
Definition dirname (p : string) : string := fst (split p).

(** *** os.makedirs and twitter.common.dirutil *)

(** [os.makedirs(name)].  [fuel] bounds the depth of the recursion; a call
    on [head] is on a shorter string, so the length of [name] is enough. *)
Fixpoint makedirs (fuel : nat) (name : string) (fs : filesystem)
    : result unit * filesystem :=
  let '(head, tail) := split name in
  let '(head, tail) := if nonempty tail then (head, tail) else split head in
  if nonempty head && nonempty tail && negb (exists_ fs head) then
    match fuel with
    | O => (Raise (RuntimeError "maximum recursion depth exceeded"), fs)
    | S fuel' =>
        let '(r, fs1) := makedirs fuel' head fs in
        let rest :=
          if bool_decide (tail = ".") then (Ok tt, fs1)
          else match mkdir fs1 name with
               | Ok fs2 => (Ok tt, fs2)
               | Raise e => (Raise e, fs1)
               end in
        match r with
        | Ok _ => rest
        | Raise (OSError code _ as e) =>
            if bool_decide (code = EEXIST) then rest else (Raise e, fs1)
        | Raise e => (Raise e, fs1)
        end
    end
  else
    match mkdir fs name with
    | Ok fs1 => (Ok tt, fs1)
    | Raise e => (Raise e, fs)
    end.

(** [safe_mkdir(directory)]: [os.makedirs], where [EEXIST] is no error. *)
Definition safe_mkdir (directory : string) (fs : filesystem)
    : result unit * filesystem :=
  let '(r, fs1) := makedirs (String.length directory) directory fs in
  match r with
  | Raise (OSError code _ as e) =>
      if bool_decide (code = EEXIST) then (Ok tt, fs1) else (Raise e, fs1)
  | _ => (r, fs1)
  end.

(** [safe_open(filename)], read to the end: the directory of [filename] is
    made first. *)
Definition safe_open_read (filename : string) (fs : filesystem)
    : result string * filesystem :=
  let '(r, fs1) := safe_mkdir (dirname filename) fs in
  match r with
  | Ok _ => (read_file fs1 filename, fs1)
  | Raise e => (Raise e, fs1)
  end.

(** [safe_open(filename, 'w')], with [contents] written. *)
Definition safe_open_write (filename contents : string) (fs : filesystem)
    : result unit * filesystem :=
  let '(r, fs1) := safe_mkdir (dirname filename) fs in
  match r with
  | Ok _ =>
      match write_file fs1 filename contents with
      | Ok fs2 => (Ok tt, fs2)
      | Raise e => (Raise e, fs1)
      end
  | Raise e => (Raise e, fs1)
  end.

(** ** ThermosProcessWrapper *)

Record ThermosProcessWrapper `{Library} := mkProcessWrapper { _process : Process }.

Module ThermosProcessWrapper.

(** [re.compile(r'^[^/]+$')] *)
Definition VALID_PROCESS_NAME_RE : regex :=
  Seq Bol (Seq (Plus (NotChar "/")) Eol).

Definition assert_valid_process_name (name : string) : result unit :=
  assert_ (re_match VALID_PROCESS_NAME_RE name) ("Invalid process name: " +:+ name).

Section methods.
Context `{Library}.

(** The [for ref in uninterp] loop; [ports] is the list being appended to. *)
Fixpoint scan (port_scope : Ref) (uninterp : list Ref) (ports : list string)
    : result (list string) :=
  match uninterp with
  | [] => Ok ports
  | ref :: uninterp' =>
      match scoped_to port_scope ref with
      | Some subscope =>
          b ← is_index subscope;
          _ ← assert_ b "";
          a ← action subscope;
          scan port_scope uninterp' (ports ++ [value a])
      | None => scan port_scope uninterp' ports
      end
  end.

Definition ports (self : ThermosProcessWrapper) : result (list string) :=
  port_scope ← from_address "thermos.ports";
  let '(_, uninterp) := process_interpolate (_process self) in
  scan port_scope uninterp [].
End methods.

End ThermosProcessWrapper.

(** ** ThermosTaskWrapper *)

Record ThermosTaskWrapper `{Library} := mkTaskWrapper { _task : Task }.

(** Keyword arguments forwarded as [**kw] to [ThermosTaskWrapper(task, **kw)]:
    [bindings] (absent or [None] is [None] here), [strict] (absent is [None]
    here and defaults to [True]) and the names of any other keywords. *)
Record kwargs `{Library} := mkKwargs {
  kw_bindings : option (list Binding);
  kw_strict : option bool;
  kw_other : list string
}.

Module ThermosTaskWrapper.
Section methods.
Context `{Library}.

(** Truth value of [bindings]: [None] and the empty sequence are false. *)
Definition truthy (bindings : option (list Binding)) : bool :=
  match bindings with
  | Some (_ :: _) => true
  | _ => false
  end.

Definition __init__ (task : Task) (bindings : option (list Binding)) (strict : bool)
    : result ThermosTaskWrapper :=
  let task := if truthy bindings then bind task (default [] bindings) else task in
  if negb (ok (check task)) && strict then
    Raise (InvalidTask (message (check task)))
  else Ok (mkTaskWrapper _ task).

(** [ThermosTaskWrapper(task, **kw)]: a keyword [__init__] does not have
    is a [TypeError]. *)
Definition new (task : Task) (kw : kwargs) : result ThermosTaskWrapper :=
  match kw_other kw with
  | [] => __init__ task (kw_bindings kw) (default true (kw_strict kw))
  | name :: _ => Raise (TypeError ("unexpected keyword argument " +:+ name))
  end.

Definition task (self : ThermosTaskWrapper) : Task := _task self.

(** The [for process in ti.processes()] loop; [ports] is the set being
    updated. *)
Fixpoint update_ports (procs : list Process) (ports : gset string)
    : result (gset string) :=
  match procs with
  | [] => Ok ports
  | process :: procs' =>
      found ← ThermosProcessWrapper.ports (mkProcessWrapper _ process);
      update_ports procs' (ports ∪ list_to_set found)
  end.

Definition ports (self : ThermosTaskWrapper) : result (gset string) :=
  let '(ti, _) := interpolate (_task self) in
  if has_processes ti then update_ports (processes ti) ∅ else Ok ∅.

Definition to_json (self : ThermosTaskWrapper) : string :=
  json_dumps (get (_task self)).

Definition to_file (self : ThermosTaskWrapper) (filename : string)
    (fs : filesystem) : result unit * filesystem :=
  let '(ti, _) := interpolate (_task self) in
  safe_open_write filename (json_dumps (get ti)) fs.

Definition from_file (filename : string) (kw : kwargs) (fs : filesystem)
    : result (option ThermosTaskWrapper) * filesystem :=
  let '(opened, fs1) := safe_open_read filename fs in
  (try_except
     (contents ← opened;
      js ← json_loads contents;
      task ← Task_ js;
      wrapper ← new task kw;
      Ok (Some wrapper))
     (fun e => Ok None),
   fs1).
End methods.
End ThermosTaskWrapper.

(** ** ThermosConfigLoader *)

(** Objects a namespace can hold: the [export] closure that [load] injects,
    the builtins module, and the classes and functions of the schema
    vocabulary, which are opaque here. *)
Inductive pyvalue :=
| VExport
| VBuiltins
| VObject (id : nat).

(** The dictionary objects: the class attribute [ThermosConfigLoader.SCHEMA],
    shared by all calls, and the dictionaries allocated since. *)
Record store := mkStore {
  SCHEMA : gmap string pyvalue;
  dicts : gmap nat (gmap string pyvalue)
}.

(** A reference to a dictionary object. *)
Inductive dictref :=
| SchemaRef
| DictRef (l : nat).

(** A compiled configuration source, by what it does to the outside: it
    reads, binds and deletes names of its namespace, calls an object with a
    task, lets an exception escape, or ends.  What the source does next is
    the continuation, which is given how the operation ended: the value of
    a name or [None] when it is unbound, whether the deleted name was bound,
    and the exception a call raised or [None] when it returned.  A source
    that catches an exception goes on after it; one that does not continues
    with [SRaise]. *)
Inductive script `{Library} :=
| SEnd
| SRaise (e : exn)
| SLoadName (name : string) (k : option pyvalue -> script)
| SStoreName (name : string) (v : pyvalue) (k : script)
| SDelName (name : string) (k : bool -> script)
| SCall (f : pyvalue) (arg : Task) (k : option exn -> script).

(** [compile(source, filename, 'exec')] *)
Class Python `{Library} := {
  compile : string -> string -> result script
}.

(** A call of the injected [export], as observed during evaluation. *)
Inductive event `{Library} :=
| ExportCall (arg : Task).

(** A loader instance; an entry of [_exported_tasks] is a wrapper or [None]. *)
Record ThermosConfigLoader `{Library} := mkLoader {
  _exported_tasks : list (option ThermosTaskWrapper)
}.

Module ThermosConfigLoader.

Definition dict_read (d : dictref) (st : store) : gmap string pyvalue :=
  match d with
  | SchemaRef => SCHEMA st
  | DictRef l => default ∅ (dicts st !! l)
  end.

Definition dict_write (d : dictref) (m : gmap string pyvalue) (st : store) : store :=
  match d with
  | SchemaRef => mkStore m (dicts st)
  | DictRef l => mkStore (SCHEMA st) (<[l := m]> (dicts st))
  end.

(** [d[name] = v] *)
Definition setitem (d : dictref) (name : string) (v : pyvalue) (st : store) : store :=
  dict_write d (<[name := v]> (dict_read d st)) st.

(** [del d[name]] *)
Definition delitem (d : dictref) (name : string) (st : store) : store :=
  dict_write d (delete name (dict_read d st)) st.

(** [copy.copy(d)]: a new dictionary with the same keys bound to the same
    objects. *)
Definition copy (d : dictref) (st : store) : dictref * store :=
  let l := fresh (dom (dicts st)) in
  (DictRef l, mkStore (SCHEMA st) (<[l := dict_read d st]> (dicts st))).

Section methods.
Context `{Library}.

Definition __init__ : ThermosConfigLoader := mkLoader _ [].

Definition add_task (self : ThermosConfigLoader) (task : option ThermosTaskWrapper)
    : ThermosConfigLoader :=
  mkLoader _ (_exported_tasks self ++ [task]).

Definition tasks (self : ThermosConfigLoader) : list (option ThermosTaskWrapper) :=
  _exported_tasks self.

(** The closure [export] of [load]: [kw] and the loader [tc] are the
    variables it captured. *)
Definition export (kw : kwargs) (task : Task) (tc : ThermosConfigLoader)
    : result ThermosConfigLoader :=
  wrapper ← ThermosTaskWrapper.new task kw;
  Ok (add_task tc (Some wrapper)).

(** Evaluation of a compiled source with [ns] as its globals, for the
    [export] closure over [kw] and [tc].  The log records every call of
    that closure; nothing reads it.  A call of [export] that raises leaves
    the loader as it is and hands the exception to the source.  What a call
    of another object does is not described: the source goes on as after a
    call that returned. *)
Fixpoint run (code : script) (ns : dictref) (kw : kwargs) (st : store)
    (tc : ThermosConfigLoader) (log : list event)
    : result unit * store * ThermosConfigLoader * list event :=
  match code with
  | SEnd => (Ok tt, st, tc, log)
  | SRaise e => (Raise e, st, tc, log)
  | SLoadName name k => run (k (dict_read ns st !! name)) ns kw st tc log
  | SStoreName name v k => run k ns kw (setitem ns name v st) tc log
  | SDelName name k =>
      match dict_read ns st !! name with
      | Some _ => run (k true) ns kw (delitem ns name st) tc log
      | None => run (k false) ns kw st tc log
      end
  | SCall f arg k =>
      match f with
      | VExport =>
          match export kw arg tc with
          | Ok tc' => run (k None) ns kw st tc' (log ++ [ExportCall arg])
          | Raise e => run (k (Some e)) ns kw st tc (log ++ [ExportCall arg])
          end
      | _ => run (k None) ns kw st tc log
      end
  end.

(** [exec_function(code, ns)]: [exec code in ns, ns].  [exec] binds
    [__builtins__] in the globals when it is missing. *)
Definition exec_function (code : script) (ns : dictref) (kw : kwargs) (st : store)
    (tc : ThermosConfigLoader)
    : result unit * store * ThermosConfigLoader * list event :=
  let st :=
    match dict_read ns st !! "__builtins__" with
    | Some _ => st
    | None => setitem ns "__builtins__" VBuiltins st
    end in
  run code ns kw st tc [].

Context {P : Python}.

Definition load (filename : string) (kw : kwargs) (fs : filesystem) (st : store)
    : result ThermosConfigLoader * store * list event :=
  let tc := __init__ in
  let '(schema_copy, st) := copy SchemaRef st in
  let st := setitem schema_copy "export" VExport st in
  match read_file fs filename with
  | Raise e => (Raise e, st, [])
  | Ok source =>
      match compile source filename with
      | Raise e => (Raise e, st, [])
      | Ok code =>
          let '(r, st, tc, log) := exec_function code schema_copy kw st tc in
          (_ ← r; Ok tc, st, log)
      end
  end.

Definition load_json (filename : string) (kw : kwargs) (fs : filesystem)
    : result ThermosConfigLoader * filesystem :=
  let tc := __init__ in
  let '(r, fs1) := ThermosTaskWrapper.from_file filename kw fs in
  (task ← r; Ok (add_task tc task), fs1).
End methods.
End ThermosConfigLoader.

(** ** An executable instance of the interface

    A cut-down pystachio and json, enough to run the loader on concrete
    documents.  The schema has two structs, [Process] with the required
    strings [cmdline] and [name], and [Task] with a string [name] and a list
    [processes] of [Process].  A schema object is its raw data plus the
    scopes bound to it; [bind] adds scopes, [get] returns the raw data,
    [interpolate] substitutes the [{{ref}}] placeholders the scopes resolve
    and reports the others, [check] looks for the required attributes in
    the interpolated data, and a placeholder left in a string is no failure.
    Documents are strings, lists and dictionaries.  The statements about the
    loader are made over [Library] and do not depend on this instance. *)
Module Reference.

#[local] Set Warnings "-register-all".
Inductive doc :=
| DStr (s : string)
| DList (l : list doc)
| DDict (items : list (string * doc)).

Definition dquote : ascii := ascii_of_nat 34.
Definition backslash : ascii := ascii_of_nat 92.
Definition is_space (a : ascii) : bool :=
  bool_decide (a = " "%char) || bool_decide (a = newline).

Fixpoint join (sep : string) (l : list string) : string :=
  match l with
  | [] => ""
  | [s] => s
  | s :: l' => s +:+ sep +:+ join sep l'
  end.

Fixpoint escape (s : string) : string :=
  match s with
  | EmptyString => EmptyString
  | String a s' =>
      if bool_decide (a = dquote) || bool_decide (a = backslash)
      then String backslash (String a (escape s'))
      else String a (escape s')
  end.

Definition quote (s : string) : string :=
  String dquote (escape s +:+ String dquote EmptyString).

Fixpoint dumps (d : doc) : string :=
  match d with
  | DStr s => quote s
  | DList l => "[" +:+ join ", " (map dumps l) +:+ "]"
  | DDict items =>
      "{" +:+ join ", " (map (fun kv => quote (fst kv) +:+ ": " +:+ dumps (snd kv)) items)
      +:+ "}"
  end.

Fixpoint skip_spaces (s : string) : string :=
  match s with
  | String a s' => if is_space a then skip_spaces s' else s
  | EmptyString => EmptyString
  end.

(** The characters of a string literal after its opening quote, and what
    follows the closing quote. *)
Fixpoint parse_chars (s : string) : option (string * string) :=
  match s with
  | EmptyString => None
  | String a s' =>
      if bool_decide (a = dquote) then Some (EmptyString, s')
      else if bool_decide (a = backslash) then
        match s' with
        | String b s'' => p ← parse_chars s''; Some (String b (fst p), snd p)
        | EmptyString => None
        end
      else p ← parse_chars s'; Some (String a (fst p), snd p)
  end.

Fixpoint parse_value (fuel : nat) (s : string) : option (doc * string) :=
  match fuel with
  | O => None
  | S fuel' =>
      match skip_spaces s with
      | String a s' =>
          if bool_decide (a = dquote) then
            p ← parse_chars s'; Some (DStr (fst p), snd p)
          else if bool_decide (a = "["%char) then
            match skip_spaces s' with
            | String b s'' =>
                if bool_decide (b = "]"%char) then Some (DList [], s'')
                else p ← parse_elements fuel' s'; Some (DList (fst p), snd p)
            | EmptyString => None
            end
          else if bool_decide (a = "{"%char) then
            match skip_spaces s' with
            | String b s'' =>
                if bool_decide (b = "}"%char) then Some (DDict [], s'')
                else p ← parse_members fuel' s'; Some (DDict (fst p), snd p)
            | EmptyString => None
            end
          else None
      | EmptyString => None
      end
  end
with parse_elements (fuel : nat) (s : string) : option (list doc * string) :=
  match fuel with
  | O => None
  | S fuel' =>
      v ← parse_value fuel' s;
      match skip_spaces (snd v) with
      | String a s' =>
          if bool_decide (a = ","%char) then
            p ← parse_elements fuel' s'; Some (fst v :: fst p, snd p)
          else if bool_decide (a = "]"%char) then Some ([fst v], s')
          else None
      | EmptyString => None
      end
  end
with parse_members (fuel : nat) (s : string) : option (list (string * doc) * string) :=
  match fuel with
  | O => None
  | S fuel' =>
      match skip_spaces s with
      | String q s0 =>
          if bool_decide (q = dquote) then
            key ← parse_chars s0;
            match skip_spaces (snd key) with
            | String c s1 =>
                if bool_decide (c = ":"%char) then
                  v ← parse_value fuel' s1;
                  match skip_spaces (snd v) with
                  | String a s' =>
                      if bool_decide (a = ","%char) then
                        p ← parse_members fuel' s';
                        Some ((fst key, fst v) :: fst p, snd p)
                      else if bool_decide (a = "}"%char) then
                        Some ([(fst key, fst v)], s')
                      else None
                  | EmptyString => None
                  end
                else None
            | EmptyString => None
            end
          else None
      | EmptyString => None
      end
  end.

Definition loads (s : string) : result doc :=
  match parse_value (S (String.length s)) s with
  | Some (d, rest) =>
      match skip_spaces rest with
      | EmptyString => Ok d
      | _ => Raise (ValueError "Extra data")
      end
  | None => Raise (ValueError "No JSON object could be decoded")
  end.

(** An upper bound on the fuel that parsing the text of a document takes. *)
Fixpoint cost (d : doc) : nat :=
  match d with
  | DStr _ => 1
  | DList l =>
      S ((fix elements (l : list doc) : nat :=
            match l with
            | [] => 0
            | d :: l' => S (cost d + elements l')
            end) l)
  | DDict items =>
      S ((fix members (l : list (string * doc)) : nat :=
            match l with
            | [] => 0
            | kv :: l' => S (cost (snd kv) + members l')
            end) items)
  end.

Fixpoint cost_elements (l : list doc) : nat :=
  match l with
  | [] => 0
  | d :: l' => S (cost d + cost_elements l')
  end.

Fixpoint cost_members (l : list (string * doc)) : nat :=
  match l with
  | [] => 0
  | kv :: l' => S (cost (snd kv) + cost_members l')
  end.

(** The characters a document can begin with in JSON. *)
Definition opens (c : ascii) : Prop := c = dquote \/ c = "["%char \/ c = "{"%char.

(** A bound name and its value; scopes are searched front to back. *)
Definition binding : Type := Ref * string.

Fixpoint resolve (scopes : list binding) (r : Ref) : option string :=
  match scopes with
  | [] => None
  | (name, v) :: scopes' => if bool_decide (name = r) then Some v else resolve scopes' r
  end.

(** The text before the first [}}] and the text after it. *)
Fixpoint until_close (s : string) : option (string * string) :=
  match s with
  | String "}" (String "}" rest) => Some (EmptyString, rest)
  | String a s' => p ← until_close s'; Some (String a (fst p), snd p)
  | EmptyString => None
  end.

(** One pass over a string: a placeholder the scopes resolve is replaced
    by its value, any other stays and its reference is reported. *)
Fixpoint interpolate_string (fuel : nat) (scopes : list binding) (s : string)
    : string * list Ref :=
  match fuel with
  | O => (s, [])
  | S fuel' =>
      match s with
      | EmptyString => (EmptyString, [])
      | String a s' =>
          let literal :=
            let '(out, refs) := interpolate_string fuel' scopes s' in
            (String a out, refs) in
          match s with
          | String "{" (String "{" body) =>
              match until_close body with
              | Some (address, rest) =>
                  match from_address address with
                  | Ok r =>
                      let '(out, refs) := interpolate_string fuel' scopes rest in
                      match resolve scopes r with
                      | Some v => (v +:+ out, refs)
                      | None => ("{{" +:+ address +:+ "}}" +:+ out, r :: refs)
                      end
                  | Raise _ => literal
                  end
              | None => literal
              end
          | _ => literal
          end
      end
  end.

Fixpoint interpolate_doc (scopes : list binding) (d : doc) : doc * list Ref :=
  match d with
  | DStr s =>
      let '(s', refs) := interpolate_string (String.length s) scopes s in (DStr s', refs)
  | DList l =>
      let rs := map (interpolate_doc scopes) l in
      (DList (map fst rs), concat (map snd rs))
  | DDict items =>
      let rs := map (fun kv => (fst kv, interpolate_doc scopes (snd kv))) items in
      (DDict (map (fun kr => (fst kr, fst (snd kr))) rs),
       concat (map (fun kr => snd (snd kr)) rs))
  end.

(** A schema object: raw data and the scopes bound to it. *)
Record object := mkObject { raw : doc; scopes : list binding }.

Fixpoint assoc (name : string) (items : list (string * doc)) : option doc :=
  match items with
  | [] => None
  | (k, v) :: items' => if bool_decide (k = name) then Some v else assoc name items'
  end.

Definition field (name : string) (d : doc) : option doc :=
  match d with
  | DDict items => assoc name items
  | _ => None
  end.

Definition obj_bind (o : object) (bs : list binding) : object :=
  mkObject (raw o) (rev bs ++ scopes o).

Definition obj_interpolate (o : object) : object * list Ref :=
  let '(d, refs) := interpolate_doc (scopes o) (raw o) in
  (mkObject d (scopes o), refs).

Definition known_task_field (name : string) : bool :=
  bool_decide (name = "name") || bool_decide (name = "processes").

Definition known_process_field (name : string) : bool :=
  bool_decide (name = "name") || bool_decide (name = "cmdline").

(** Data a [Process] can be built from: a dictionary of its attributes. *)
Definition process_data (d : doc) : bool :=
  match d with
  | DDict items => forallb (fun kv => known_process_field (fst kv)) items
  | _ => false
  end.

(** Data a [Task] can be built from: a dictionary of its attributes, where
    [processes] is a list of process data. *)
Definition task_data (d : doc) : bool :=
  match d with
  | DDict items =>
      forallb (fun kv => known_task_field (fst kv)) items
      && match assoc "processes" items with
         | Some (DList l) => forallb process_data l
         | Some _ => false
         | None => true
         end
  | _ => false
  end.

Definition success : TypeCheck := mkTypeCheck true "".
Definition failure (msg : string) : TypeCheck := mkTypeCheck false msg.

Definition check_process (d : doc) : TypeCheck :=
  if process_data d then
    match field "cmdline" d, field "name" d with
    | None, _ => failure "Process[cmdline] is required."
    | Some _, None => failure "Process[name] is required."
    | Some (DStr _), Some (DStr _) => success
    | Some _, Some _ => failure "Process has an attribute that is no string"
    end
  else failure "Process data expected".

Fixpoint check_processes (l : list doc) : TypeCheck :=
  match l with
  | [] => success
  | d :: l' =>
      if ok (check_process d) then check_processes l'
      else failure ("Element in ProcessList failed check: " +:+ message (check_process d))
  end.

Definition check_task (d : doc) : TypeCheck :=
  if task_data d then
    match field "name" d with
    | Some (DStr _) | None =>
        match field "processes" d with
        | Some (DList l) => check_processes l
        | _ => success
        end
    | Some _ => failure "Task[name] is no string"
    end
  else failure "Task data expected".

(** [check()]: the type check of the interpolated data. *)
Definition obj_check (o : object) : TypeCheck :=
  check_task (raw (fst (obj_interpolate o))).

Definition obj_has_processes (o : object) : bool :=
  bool_decide (is_Some (field "processes" (raw o))).

Definition obj_processes (o : object) : list object :=
  match field "processes" (raw o) with
  | Some (DList l) => map (fun d => mkObject d (scopes o)) l
  | _ => []
  end.

(** [Task(js)]: a dictionary with the attributes of the schema. *)
Definition make_task (js : doc) : result object :=
  match js with
  | DDict items =>
      if task_data js then Ok (mkObject js [])
      else Raise (TypeError "Task has no such attribute")
  | _ => Raise (ValueError "Task expects a mapping")
  end.

#[local] Instance library : Library := {|
  Task := object;
  Process := object;
  Binding := binding;
  Document := doc;
  bind := obj_bind;
  check := obj_check;
  interpolate := obj_interpolate;
  has_processes := obj_has_processes;
  processes := obj_processes;
  get := raw;
  Task_ := make_task;
  process_interpolate := obj_interpolate;
  json_dumps := dumps;
  json_loads := loads
|}.

Fixpoint find_source (source : string) (sources : list (string * script))
    : option script :=
  match sources with
  | [] => None
  | (text, code) :: sources' =>
      if bool_decide (text = source) then Some code else find_source source sources'
  end.

(** A compiler that knows the given sources. *)
Definition python (sources : list (string * script)) : Python := {|
  compile source filename :=
    match find_source source sources with
    | Some code => Ok code
    | None => Raise (SyntaxError filename)
    end
|}.

Definition empty_store : store := mkStore ∅ ∅.

(** Sample documents. *)
Definition ref_of (address : string) : Ref :=
  match from_address address with
  | Ok r => r
  | Raise _ => mkRef []
  end.

Definition process_doc (name cmdline : string) : doc :=
  DDict [("name", DStr name); ("cmdline", DStr cmdline)].

Definition task_doc (name : string) (procs : list doc) : doc :=
  DDict [("name", DStr name); ("processes", DList procs)].

End Reference.


(** ** Notions used in the statements *)

(** The components of [ref] after a leading [.thermos.ports], when there is
    at least one. *)
Definition after_ports (ref : Ref) : option (list Component) :=
  match components ref with
  | Dereference a :: Dereference b :: c :: rest =>
      if bool_decide (a = "thermos" /\ b = "ports") then Some (c :: rest) else None
  | _ => None
  end.

(** The port a reference names: the value of the component that follows
    [.thermos.ports]. *)
Definition port_name (ref : Ref) : option string :=
  match after_ports ref with
  | Some (c :: _) => Some (value c)
  | _ => None
  end.

(** The component that follows [.thermos.ports] is an index, [[name]]. *)
Definition index_led (ref : Ref) : Prop :=
  forall c rest, after_ports ref = Some (c :: rest) -> exists name, c = Index name.

(** The component that follows [.thermos.ports] is a dereference, [.name]. *)
Definition dereference_led (ref : Ref) : Prop :=
  exists name rest, after_ports ref = Some (Dereference name :: rest).

(** The template construction validates: [task] with [bindings] bound when
    there are any. *)
Definition bound_template `{Library} (task : Task) (bindings : option (list Binding))
    : Task :=
  match bindings with
  | Some (b :: bs) => bind task (b :: bs)
  | _ => task
  end.

(** No keywords passed: [bindings] and [strict] take their defaults. *)
Definition no_kwargs `{Library} : kwargs := mkKwargs _ None None [].

(** The interpolated JSON representation of a wrapper: what [to_file]
    writes. *)
Definition interpolated_json `{Library} (self : ThermosTaskWrapper) : string :=
  json_dumps (get (fst (interpolate (_task self)))).

(** The kind of a node, with the contents of a file. *)
Inductive kind :=
| KFile (contents : string)
| KNoAccess
| KDir.

Definition kind_of (n : node) : kind :=
  match n with
  | RegularFile contents => KFile contents
  | NoAccess => KNoAccess
  | Directory _ => KDir
  end.

Definition stat (n : node) (path : list string) : option kind :=
  kind_of <$> descend n path.

Definition kind_at (fs : filesystem) (q : list string) : option kind := stat (tree fs) q.

(** [fs'] has what [fs] has: the same working directory, and every file
    and directory of [fs], the files with their contents. *)
Definition extends (fs fs' : filesystem) : Prop :=
  cwd fs' = cwd fs /\ forall q k, kind_at fs q = Some k -> kind_at fs' q = Some k.

(** The file system in which [safe_open] opens [filename]: the directories
    of [filename] are made. *)
Definition opened_in (filename : string) (fs : filesystem) : filesystem :=
  snd (safe_mkdir (dirname filename) fs).

(** The store a call of [load] or [exec_function] leaves behind. *)
Definition store_after_load {A B : Type} (outcome : A * store * B) : store :=
  snd (fst outcome).
Definition store_after_exec {A B C : Type} (outcome : A * store * B * C) : store :=
  snd (fst (fst outcome)).

(** The task an observed call of [export] was given. *)
Definition event_arg `{Library} (ev : event) : Task :=
  match ev with
  | ExportCall arg => arg
  end.

(** The wrappers of the calls of [export] that returned, in call order. *)
Definition collected `{Library} (kw : kwargs) (log : list event)
    : list (option ThermosTaskWrapper) :=
  omap (fun ev =>
          match ThermosTaskWrapper.new (event_arg ev) kw with
          | Ok wrapper => Some (Some wrapper)
          | Raise _ => None
          end) log.

Module Samples.
Import Reference.
#[local] Existing Instance Reference.library.

Definition wrap_process (d : doc) : @ThermosProcessWrapper Reference.library :=
  @mkProcessWrapper Reference.library (mkObject d []).

(** [thermos.ports[http]] twice, [thermos.ports[admin]], and a reference
    outside the port namespace. *)
Definition server : doc :=
  process_doc "server"
    "run --port {{thermos.ports[http]}} --admin {{thermos.ports[admin]}} {{role}} {{thermos.ports[http]}}".

(** A dereference where the index is expected. *)
Definition health : doc := process_doc "health" "probe {{thermos.ports.health.sub}}".

(** An index followed by a further component. *)
Definition nested : doc := process_doc "nested" "probe {{thermos.ports[http].sub}}".

Definition role_www : @Binding Reference.library := (ref_of "role", "www").

(** A task with one placeholder, [{{role}}]. *)
Definition greeter : @Task Reference.library :=
  mkObject (task_doc "greeter" [process_doc "hello" "echo hello {{role}}"]) [].

(** A task whose process lacks the required [cmdline]: it does not
    type-check. *)
Definition broken : @Task Reference.library :=
  mkObject (task_doc "broken" [DDict [("name", DStr "hello")]]) [].

(** Two processes that share the port [http]; the first also uses [admin]. *)
Definition web : @Task Reference.library :=
  mkObject (task_doc "web" [server; process_doc "check" "ping {{thermos.ports[http]}}"]) [].

(** A task without a [processes] field. *)
Definition bare : @Task Reference.library := mkObject (DDict [("name", DStr "bare")]) [].

(** [greeter] with [{{role}}] bound. *)
Definition greeter_www : @Task Reference.library := bind greeter [role_www].

(** No keywords: [bindings=None], [strict=True]. *)
Definition no_kw : @kwargs Reference.library := mkKwargs _ None None [].

(** [strict=False] *)
Definition lenient : @kwargs Reference.library := mkKwargs _ None (Some false) [].

(** A source that exports [bare] and then [greeter], and its compiled form:
    each call looks [export] up in the namespace, and an exception that
    [export] raises is not caught. *)
Definition two_exports_source : string := "export(bare); export(greeter)".

Definition call_export (task : @Task Reference.library) (k : script) : script :=
  SLoadName "export" (fun f =>
    match f with
    | Some f =>
        SCall f task (fun raised =>
          match raised with
          | None => k
          | Some e => SRaise e
          end)
    | None => SRaise (RuntimeError "name is not defined: export")
    end).

Definition two_exports : script :=
  call_export bare (call_export greeter SEnd).

(** A source that exports [broken] inside [try: ... except Exception: pass]
    and then exports [greeter]. *)
Definition guarded_export_source : string :=
  "try:
  export(broken)
except Exception:
  pass
export(greeter)".

Definition guarded_export : script :=
  SLoadName "export" (fun f =>
    match f with
    | Some f => SCall f broken (fun _ => call_export greeter SEnd)
    | None => call_export greeter SEnd
    end).

(** A source that rebinds [export] and defines a name of its own. *)
Definition rebinding : script :=
  SStoreName "export" (VObject 7) (SStoreName "jvm" (VObject 8) SEnd).

Definition rebinding_source : string := "export = 7; jvm = 8".

(** A source that exports [broken] and then [greeter], and catches
    nothing. *)
Definition strict_source : string := "export(broken); export(greeter)".

Definition strict_exports : script :=
  call_export broken (call_export greeter SEnd).

Definition python : Python :=
  Reference.python [(two_exports_source, two_exports);
                    (rebinding_source, rebinding);
                    (guarded_export_source, guarded_export);
                    (strict_source, strict_exports)].

Definition with_role : @kwargs Reference.library :=
  mkKwargs _ (Some [role_www]) None [].

(** A working directory [/etc/thermos] with four configuration files. *)
Definition config_disk : filesystem :=
  mkFs {[ "etc" :=
            Directory {[ "thermos" :=
              Directory {[ "web.thermos" := RegularFile two_exports_source;
                           "rebind.thermos" := RegularFile rebinding_source;
                           "guarded.thermos" := RegularFile guarded_export_source;
                           "strict.thermos" := RegularFile strict_source ]} ]} ]}
       ["etc"; "thermos"].

(** A schema vocabulary with two names. *)
Definition vocabulary : store :=
  mkStore {[ "Task" := VObject 1; "Process" := VObject 2 ]} ∅.

(** A working directory [/tmp] that holds the documents of [greeter], where
    [{{role}}] is unbound, and of [broken], and a file that cannot be
    opened. *)
Definition disk : filesystem :=
  mkFs {[ "tmp" :=
            Directory {[ "greeter.json" := RegularFile (dumps (raw greeter));
                         "broken.json" := RegularFile (dumps (raw broken));
                         "secret.json" := NoAccess ]} ]}
       ["tmp"].
End Samples.

(** * The command-line client

    The helpers of [src/python/twitter/mesos/bin/mesos_client.py] that
    compute on their arguments: [make_commands_str], [generate_terse_usage],
    [parse_package], [_getshards], [synthesize_url], [handle_open] and the
    command line that [ssh] builds. *)

(** ** Python strings and lists *)

(** [s.split(sep)] for a one-character separator: the pieces between the
    occurrences of [sep], empty ones included; never the empty list. *)
Fixpoint str_split (sep : ascii) (s : string) : list string :=
  match s with
  | EmptyString => [EmptyString]
  | String a s' =>
      if bool_decide (a = sep) then EmptyString :: str_split sep s'
      else match str_split sep s' with
           | piece :: pieces => String a piece :: pieces
           | [] => [String a EmptyString]
           end
  end.

(** [sep.join(l)] *)
Fixpoint str_join (sep : string) (l : list string) : string :=
  match l with
  | [] => EmptyString
  | [s] => s
  | s :: l' => s +:+ sep +:+ str_join sep l'
  end.

(** [s.count(c)] for a character [c]. *)
Fixpoint str_count (c : ascii) (s : string) : nat :=
  match s with
  | EmptyString => 0
  | String a s' => (if bool_decide (a = c) then 1 else 0) + str_count c s'
  end.

(** Truth value of a string or [None]: [None] and [''] are false. *)
Definition str_truthy (s : option string) : bool :=
  match s with
  | None | Some EmptyString => false
  | Some _ => true
  end.

(** Order of [str] values: by character code, a proper prefix first. *)
Definition str_le (a b : string) : Prop := String.leb a b = true.

#[global] Instance str_le_dec : RelDecision str_le.
Proof. intros a b. unfold str_le. apply _. Defined.

(** [l.sort()] and [sorted(l)] on strings. *)
Definition str_sort (l : list string) : list string := merge_sort str_le l.

(** The quotation mark. *)
Definition quotation_mark : string := String (ascii_of_nat 34) EmptyString.

(** Library functions the client calls on strings and numbers: [int(s)]
    ([None] stands for [ValueError]), ['%r' % s], ['%d' % n] and
    [urlparse.urljoin]. *)
Class PyLib := {
  int_ : string -> option Z;
  repr_ : string -> string;
  format_d : Z -> string;
  urljoin : string -> string -> string
}.

(** ** mesos_client *)

Module MesosClient.

(** How a call ends: it returns, it calls [die] (which logs the message and
    exits with status 1), or it raises. *)
Inductive outcome (A : Type) :=
| Done (a : A)
| Die (msg : string)
| OptionValueError (msg : string)
| Uncaught (e : exn).
Arguments Done {A} a.
Arguments Die {A} msg.
Arguments OptionValueError {A} msg.
Arguments Uncaught {A} e.

(** What a call did besides: the records it logged (level and message) and
    the browser tabs it opened. *)
Record effects := mkEffects {
  logged : list (string * string);
  opened : list string
}.

Definition quiet : effects := mkEffects [] [].

(** [make_commands_str(commands)]: the result, and [commands] as the call
    leaves it (it is sorted in place). *)
Definition make_commands_str (commands : list string) : result string * list string :=
  let commands := str_sort commands in
  (match commands with
   | [] => Raise IndexError
   | [c0] => Ok c0
   | [c0; c1] => Ok (c0 +:+ " (or " +:+ c1 +:+ ")")
   | c0 :: rest => Ok (c0 +:+ " (or any of: " +:+ str_join " " rest +:+ ")")
   end, commands).

(** The loop of [generate_terse_usage] and [generate_full_usage]:
    [docs_to_commands[doc].append(command)] on a [defaultdict(list)]. *)
Definition docs_to_commands (commands_and_docstrings : list (string * option string))
    : gmap (option string) (list string) :=
  foldl (fun d cd => <[snd cd := default [] (d !! snd cd) ++ [fst cd]]> d)
        ∅ commands_and_docstrings.

(** [generate_terse_usage] from the values of [docs_to_commands], in the
    order the dictionary yields them, and [app.name()]. *)
Definition terse_usage (name : string) (groups : list (list string)) : result string :=
  strs ← mapM (fun commands => fst (make_commands_str commands)) groups;
  let usage := str_join "
    " (str_sort strs) in
  Ok ("
Available commands:
    " +:+ usage +:+ "

For more help on an individual command:
    " +:+ name +:+ " help <command>
").

Definition generate_terse_usage (name : string)
    (commands_and_docstrings : list (string * option string)) : result string :=
  terse_usage name (map snd (map_to_list (docs_to_commands commands_and_docstrings))).

(** [parse_package(option, _, value, parser)]: [dest] is [option.dest] and
    [values] the attributes of [parser.values] that hold packages. *)
Definition parse_package (dest : string) (value : option string)
    (values : gmap string (list string)) : outcome (gmap string (list string)) :=
  match value with
  | None => Done values
  | Some value =>
      let splits := str_split ":" value in
      if bool_decide (length splits <> 3) then
        OptionValueError "Expected package to be of the form role:name:version"
      else Done (<[dest := splits]> values)
  end.

Section with_library.
Context {P : PyLib}.

Definition _getshards (shards : option string) : outcome (option (list Z)) :=
  if str_truthy shards then
    match mapM int_ (str_split "," (default EmptyString shards)) with
    | Some ids => Done (Some ids)
    | None => Die ("Invalid shards list: " +:+ repr_ (default EmptyString shards))
    end
  else Done None.

(** [synthesize_url(scheduler_client, role, job)]: [url] is
    [scheduler_client.url]. *)
Definition synthesize_url (url role job : option string) : outcome (option string) * effects :=
  if negb (str_truthy url) then
    (Done None, mkEffects [("warning", "Unable to find scheduler web UI!")] [])
  else if str_truthy job && negb (str_truthy role) then
    (Die "If job specified, must specify role!", quiet)
  else
    let scheduler_url := urljoin (default EmptyString url) "scheduler" in
    let scheduler_url :=
      if str_truthy role then
        let with_role := scheduler_url +:+ "/" +:+ default EmptyString role in
        if str_truthy job then with_role +:+ "/" +:+ default EmptyString job
        else with_role
      else scheduler_url in
    (Done (Some scheduler_url), quiet).

(** [handle_open(scheduler_client, role, job)]: [open_browser] is
    [app.get_options().open_browser]. *)
Definition handle_open (open_browser : bool) (url role job : option string)
    : outcome unit * effects :=
  match synthesize_url url role job with
  | (Done found, eff) =>
      if str_truthy found then
        (Done tt,
         mkEffects (logged eff ++ [("info", "Job url: " +:+ default EmptyString found)])
                   (opened eff ++
                    (if open_browser then [default EmptyString found] else [])))
      else (Done tt, eff)
  | (Die msg, eff) => (Die msg, eff)
  | (OptionValueError msg, eff) => (OptionValueError msg, eff)
  | (Uncaught e, eff) => (Uncaught e, eff)
  end.

(** The task a query returned, as [ssh] reads it: [assignedTask.taskId],
    [assignedTask.slaveHost], [assignedTask.assignedPorts] and
    [assignedTask.task.owner.role]. *)
Record scheduled_task := mkScheduledTask {
  taskId : string;
  slaveHost : string;
  assignedPorts : gmap string Z;
  owner_role : string
}.

(** The response of [api.query]. *)
Record response := mkResponse {
  responseCode : bool;
  message_ : string;
  tasks : list scheduled_task
}.

(** The [for tunnel in options.tunnels] loop of [ssh]; [ssh_command] is the
    list being extended. *)
Fixpoint add_tunnels (task : scheduled_task) (tunnels : list string)
    (ssh_command : list string) : outcome (list string) :=
  match tunnels with
  | [] => Done ssh_command
  | tunnel :: tunnels' =>
      let unparsed :=
        Die ("Could not parse tunnel: " +:+ tunnel
             +:+ ".  Must be of form PORT:NAME") in
      match str_split ":" tunnel with
      | [port; name] =>
          match int_ port with
          | Some port =>
              match assignedPorts task !! name with
              | Some remote =>
                  add_tunnels task tunnels'
                    (ssh_command ++
                     ["-L"; format_d port +:+ ":" +:+ slaveHost task +:+ ":"
                            +:+ format_d remote])
              | None =>
                  Die ("Task " +:+ taskId task +:+ " has no port named " +:+ name)
              end
          | None => unparsed
          end
      | _ => unparsed
      end
  end.

(** [ssh(role, job, shard, *args)] up to the call of [subprocess.call]: the
    result is the command line it is called with.  [query] is
    [api.query(api.build_query(role, job, set([shard])))], [substitute] is
    [DistributedCommandRunner.substitute] on the first task of the response,
    [tunnels] and [ssh_user] are the options. *)
Definition ssh (query : string -> string -> Z -> response)
    (substitute : string -> scheduled_task -> string)
    (tunnels : list string) (ssh_user : option string)
    (role job shard : string) (args : list string) : outcome (list string) :=
  match int_ shard with
  | None => Uncaught (ValueError shard)
  | Some shard_id =>
      let resp := query role job shard_id in
      if negb (responseCode resp) then
        Die ("Request failed, server responded with " +:+ quotation_mark
             +:+ message_ resp +:+ quotation_mark)
      else
        let remote_cmd :=
          match args with
          | [] => "bash"
          | _ => str_join " " args
          end in
        match tasks resp with
        | [] => Uncaught IndexError
        | task :: _ =>
            let command := substitute remote_cmd task in
            let role := owner_role task in
            match add_tunnels task tunnels ["ssh"; "-t"] with
            | Done ssh_command =>
                let login := if str_truthy ssh_user then default EmptyString ssh_user
                             else role in
                Done (ssh_command ++ [login +:+ "@" +:+ slaveHost task; command])
            | ended => ended
            end
        end
  end.
End with_library.
End MesosClient.

(** An instance of [PyLib] to run the client on: [int] on plain decimal
    numerals, [%r] on strings that need no escape, [%d], and [urljoin] for
    a base URL without a path. *)
Module ClientSamples.

Definition lib : PyLib := {|
  int_ s := option_map Z.of_int (NilZero.int_of_string s);
  repr_ s := "'" +:+ s +:+ "'";
  format_d n := NilZero.string_of_int (Z.to_int n);
  urljoin base relative := base +:+ "/" +:+ relative
|}.

Definition task : MesosClient.scheduled_task :=
  MesosClient.mkScheduledTask "task-7" "slave12" {[ "http" := 31337%Z ]} "www".

Definition query (role job : string) (shard : Z) : MesosClient.response :=
  MesosClient.mkResponse true "" [task].

Definition substitute (command : string) (t : MesosClient.scheduled_task) : string :=
  "cd sandbox && " +:+ command.

End ClientSamples.

(** More sample tasks for the loader. *)
Module LoaderSamples.

(** A task whose second process has a dereference where the index is
    expected. *)
Definition probes : @Task Reference.library :=
  Reference.mkObject (Reference.task_doc "probes" [Samples.server; Samples.health]) [].

(** The processes of [Samples.web], in the other order. *)
Definition web_swapped : @Task Reference.library :=
  Reference.mkObject
    (Reference.task_doc "web"
       [Reference.process_doc "check" "ping {{thermos.ports[http]}}"; Samples.server]) [].

End LoaderSamples.


(** * Properties *)

(** ** Process names *)

Lemma re_plus_not_slash (fuel : nat) (bol : bool) (s : string) :
  String.length s <= fuel ->
  re_plus (re_run (NotChar "/")) (fun b' s' => re_run Eol b' s' (fun _ _ => true)) fuel bol s
  = negb (bool_decide (s = "")) && negb (occurs "/" s).
Proof.
  revert bol s. induction fuel as [|fuel IH]; intros bol s Hlen.
  - destruct s; [reflexivity | simpl in Hlen; lia].
  - destruct s as [|a s]; [reflexivity|].
    cbn [re_plus re_run occurs]. simpl in Hlen.
    rewrite (bool_decide_eq_false_2 (String a s = "")) by discriminate.
    cbn [negb andb].
    destruct (bool_decide (a = "/"%char)) eqn:Ha; [reflexivity|].
    assert ((String.length s <? String.length (String a s))%nat = true) as ->
      by (apply Nat.ltb_lt; simpl; lia).
    rewrite IH by lia. cbn [orb].
    destruct s as [|b s]; [reflexivity|].
    rewrite bool_decide_eq_false_2 by discriminate. cbn [negb andb].
    destruct (occurs "/" (String b s)) eqn:Ho; cbn [negb orb]; [|reflexivity].
    rewrite andb_true_r. unfold at_eol.
    destruct s; [|reflexivity].
    cbn [occurs] in Ho. rewrite orb_false_r in Ho.
    apply bool_decide_eq_true in Ho. subst b. reflexivity.
Qed.

Lemma VALID_PROCESS_NAME_RE_match (name : string) :
  re_match ThermosProcessWrapper.VALID_PROCESS_NAME_RE name
  = negb (bool_decide (name = "")) && negb (occurs "/" name).
Proof.
  unfold re_match, ThermosProcessWrapper.VALID_PROCESS_NAME_RE.
  cbn [re_run andb]. apply re_plus_not_slash. lia.
Qed.

(** C10.  [assert_valid_process_name name] passes exactly when [name] is not
    empty and has no ['/'] in it; for the empty string and for a name with a
    ['/'] the assertion fails with the message [Invalid process name: name]. *)
Theorem assert_valid_process_name_spec (name : string) :
  (ThermosProcessWrapper.assert_valid_process_name name = Ok tt
   <-> name <> "" /\ occurs "/" name = false)
  /\ (name = "" \/ occurs "/" name = true ->
      ThermosProcessWrapper.assert_valid_process_name name
      = Raise (AssertionError ("Invalid process name: " +:+ name))).
Proof.
  unfold ThermosProcessWrapper.assert_valid_process_name, assert_.
  rewrite VALID_PROCESS_NAME_RE_match.
  destruct (decide (name = "")) as [->|Hne].
  - cbn. split; [split; [discriminate | intros [[] _]; reflexivity] | reflexivity].
  - rewrite bool_decide_eq_false_2 by assumption. cbn [negb andb].
    destruct (occurs "/" name); cbn [negb]; split.
    + split; [discriminate | intros [_ ?]; discriminate].
    + reflexivity.
    + split; [intros _; split; [assumption | reflexivity] | reflexivity].
    + intros [?|?]; [contradiction | discriminate].
Qed.

Lemma assert_valid_process_name_witness :
  ThermosProcessWrapper.assert_valid_process_name "server" = Ok tt
  /\ ThermosProcessWrapper.assert_valid_process_name "bin/server"
     = Raise (AssertionError "Invalid process name: bin/server")
  /\ ThermosProcessWrapper.assert_valid_process_name ""
     = Raise (AssertionError "Invalid process name: ").
Proof.
  split; [|split].
  - apply (proj1 (assert_valid_process_name_spec "server")).
    split; [discriminate | reflexivity].
  - apply (proj2 (assert_valid_process_name_spec "bin/server")). right. reflexivity.
  - apply (proj2 (assert_valid_process_name_spec "")). left. reflexivity.
Defined.

(** ** The process scanner *)

Lemma from_address_thermos_ports :
  from_address "thermos.ports" = Ok (mkRef [Dereference "thermos"; Dereference "ports"]).
Proof. reflexivity. Qed.

Lemma scoped_to_thermos_ports (ref : Ref) :
  scoped_to (mkRef [Dereference "thermos"; Dereference "ports"]) ref
  = mkRef <$> after_ports ref.
Proof.
  unfold scoped_to, after_ports. destruct ref as [cs]. cbn [components length].
  destruct cs as [|c1 [|c2 [|c3 rest]]]; cbn.
  - case_bool_decide; reflexivity.
  - case_bool_decide; destruct c1; reflexivity.
  - case_bool_decide; destruct c1, c2; reflexivity.
  - destruct c1 as [a|a], c2 as [b|b];
      try (rewrite bool_decide_eq_false_2 by congruence; reflexivity).
    destruct (decide (a = "thermos" /\ b = "ports")) as [[-> ->]|Hne].
    + rewrite !bool_decide_eq_true_2 by (try split; reflexivity). reflexivity.
    + rewrite (bool_decide_eq_false_2 (a = _ /\ _)) by assumption.
      rewrite bool_decide_eq_false_2; [reflexivity|].
      intros Heq. apply Hne. injection Heq as -> ->. split; reflexivity.
Qed.

Lemma scan_spec (uninterp : list Ref) (ports : list string) :
  (Forall index_led uninterp ->
   ThermosProcessWrapper.scan (mkRef [Dereference "thermos"; Dereference "ports"])
     uninterp ports = Ok (ports ++ omap port_name uninterp))
  /\ (Exists dereference_led uninterp ->
      ThermosProcessWrapper.scan (mkRef [Dereference "thermos"; Dereference "ports"])
        uninterp ports = Raise (AssertionError "")).
Proof.
  revert ports. induction uninterp as [|ref uninterp IH]; intros ports.
  - split; [intros _; cbn; rewrite app_nil_r; reflexivity | intros Hex; inversion Hex].
  - cbn [ThermosProcessWrapper.scan]. rewrite scoped_to_thermos_ports.
    change (omap port_name (ref :: uninterp))
      with (match port_name ref with
            | Some y => y :: omap port_name uninterp
            | None => omap port_name uninterp
            end).
    unfold port_name at 1.
    destruct (after_ports ref) as [[|c rest]|] eqn:Hafter; cbn [fmap option_fmap option_map].
    + exfalso. unfold after_ports in Hafter.
      repeat (case_match; try discriminate).
    + destruct c as [name|name];
        cbn [is_index action components mbind result_bind assert_ value]; split.
      * intros Hall. inversion Hall; subst.
        rewrite (proj1 (IH _)) by assumption. rewrite <- app_assoc. reflexivity.
      * intros Hex. inversion Hex as [? ? (n & r & Hd)|? ? Hd]; subst.
        -- rewrite Hafter in Hd. discriminate.
        -- apply IH. assumption.
      * intros Hall. inversion Hall as [|? ? Hled _]; subst.
        destruct (Hled _ _ Hafter) as [? ?]. discriminate.
      * reflexivity.
    + split.
      * intros Hall. inversion Hall; subst. apply IH. assumption.
      * intros Hex. inversion Hex as [? ? (n & r & Hd)|? ? Hd]; subst.
        -- rewrite Hafter in Hd. discriminate.
        -- apply IH. assumption.
Qed.

Lemma index_or_dereference_led (uninterp : list Ref) :
  Forall index_led uninterp \/ Exists dereference_led uninterp.
Proof.
  induction uninterp as [|ref uninterp [IH|IH]].
  - left. constructor.
  - destruct (after_ports ref) as [[|[name|name] rest]|] eqn:Hafter.
    + left. constructor; [|assumption]. intros c r Hc. rewrite Hafter in Hc. discriminate.
    + left. constructor; [|assumption]. intros c r Hc. rewrite Hafter in Hc.
      injection Hc as <- <-. eauto.
    + right. constructor. exists name, rest. assumption.
    + left. constructor; [|assumption]. intros c r Hc. rewrite Hafter in Hc. discriminate.
  - right. constructor 2. assumption.
Qed.

(** C3, as the code has it.  The scanner goes through the references that
    interpolation left unresolved.  One that does not extend [thermos.ports]
    is skipped.  When each of the others has an index right after
    [thermos.ports], the scanner returns the values of these indexes in
    order, whatever follows the index.  When one of them has a dereference
    right after [thermos.ports], as [thermos.ports.health.sub] has, the
    assertion fails.  There is no third case. *)
Theorem process_ports_spec {L : Library} (self : ThermosProcessWrapper) :
  let uninterp := snd (process_interpolate (_process self)) in
  (Forall index_led uninterp ->
   ThermosProcessWrapper.ports self = Ok (omap port_name uninterp))
  /\ (Exists dereference_led uninterp ->
      ThermosProcessWrapper.ports self = Raise (AssertionError ""))
  /\ (Forall index_led uninterp \/ Exists dereference_led uninterp).
Proof.
  unfold ThermosProcessWrapper.ports. rewrite from_address_thermos_ports.
  cbn [mbind result_bind].
  destruct (process_interpolate (_process self)) as [p uninterp]. cbn [snd].
  split; [|split].
  - apply (scan_spec uninterp []).
  - apply (scan_spec uninterp []).
  - apply index_or_dereference_led.
Qed.

Lemma process_ports_witness :
  ThermosProcessWrapper.ports (Samples.wrap_process Samples.server)
  = Ok ["http"; "admin"; "http"]
  /\ ThermosProcessWrapper.ports (Samples.wrap_process Samples.health)
     = Raise (AssertionError "").
Proof.
  split.
  - apply (proj1 (process_ports_spec (Samples.wrap_process Samples.server))).
    vm_compute. repeat constructor; intros c rest Hc; vm_compute in Hc;
      try discriminate; injection Hc as <- <-; eauto.
  - apply (proj1 (proj2 (process_ports_spec (Samples.wrap_process Samples.health)))).
    vm_compute. constructor. exists "health", [Dereference "sub"]. reflexivity.
Defined.

(** The process [probe {{thermos.ports[http].sub}}]: what follows
    [thermos.ports] is [[http].sub], two components, and the scanner returns
    [http] for it. *)
Lemma nested_index_ports :
  snd (process_interpolate (_process (Samples.wrap_process Samples.nested)))
  = [mkRef [Dereference "thermos"; Dereference "ports"; Index "http"; Dereference "sub"]]
  /\ ThermosProcessWrapper.ports (Samples.wrap_process Samples.nested) = Ok ["http"].
Proof. split; reflexivity. Qed.

(** C3 as stated does not hold: a reference under [thermos.ports] whose
    remainder is more than a single index need not fail the assertion. *)
Lemma process_ports_nested_counterexample :
  ~ (forall (L : Library) (self : ThermosProcessWrapper) (ref sub : Ref),
       ref ∈ snd (process_interpolate (_process self)) ->
       scoped_to (mkRef [Dereference "thermos"; Dereference "ports"]) ref = Some sub ->
       (~ exists name, components sub = [Index name]) ->
       raises (ThermosProcessWrapper.ports self)).
Proof.
  intros Hclaim.
  destruct (Hclaim Reference.library (Samples.wrap_process Samples.nested)
              (mkRef [Dereference "thermos"; Dereference "ports"; Index "http";
                      Dereference "sub"])
              (mkRef [Index "http"; Dereference "sub"])) as [e He].
  - rewrite (proj1 nested_index_ports). apply list_elem_of_singleton. reflexivity.
  - reflexivity.
  - intros [name Hname]. discriminate.
  - rewrite (proj2 nested_index_ports) in He. discriminate.
Qed.

(** ** The task wrapper: construction *)

Lemma init_eq {L : Library} (task : Task) (bindings : option (list Binding))
    (strict : bool) :
  ThermosTaskWrapper.__init__ task bindings strict
  = if negb (ok (check (bound_template task bindings))) && strict
    then Raise (InvalidTask (message (check (bound_template task bindings))))
    else Ok (mkTaskWrapper _ (bound_template task bindings)).
Proof.
  unfold ThermosTaskWrapper.__init__.
  destruct bindings as [[|b bs]|]; reflexivity.
Qed.

(** C1.  With [strict] true, construction binds [bindings] (when there are
    any) and succeeds exactly when the bound template type-checks, wrapping
    the bound template; otherwise it raises [InvalidTask] with the message
    of the check.  With [strict] false it always succeeds and wraps the bound
    template. *)
Theorem init_spec {L : Library} (task : Task) (bindings : option (list Binding)) :
  let bound := bound_template task bindings in
  (returns (ThermosTaskWrapper.__init__ task bindings true) <-> ok (check bound) = true)
  /\ (ok (check bound) = true ->
      ThermosTaskWrapper.__init__ task bindings true = Ok (mkTaskWrapper _ bound))
  /\ (ok (check bound) = false ->
      ThermosTaskWrapper.__init__ task bindings true
      = Raise (InvalidTask (message (check bound))))
  /\ ThermosTaskWrapper.__init__ task bindings false = Ok (mkTaskWrapper _ bound).
Proof.
  intros bound. rewrite !init_eq. fold bound.
  destruct (ok (check bound)); cbn [negb andb]; repeat split; try discriminate;
    try reflexivity.
  - intros _. eexists. reflexivity.
  - intros [w Hw]. discriminate.
Qed.

(** [greeter] type-checks with its role bound; [broken], whose process
    lacks the required [cmdline], does not. *)
Lemma init_witness :
  ThermosTaskWrapper.__init__ Samples.greeter (Some [Samples.role_www]) true
  = Ok (mkTaskWrapper _ (bind Samples.greeter [Samples.role_www]))
  /\ ThermosTaskWrapper.__init__ Samples.broken None true
     = Raise (InvalidTask
                "Element in ProcessList failed check: Process[cmdline] is required.").
Proof.
  split.
  - apply (proj1 (proj2 (@init_spec Reference.library Samples.greeter
                           (Some [Samples.role_www])))).
    reflexivity.
  - apply (proj1 (proj2 (proj2 (@init_spec Reference.library Samples.broken None)))).
    reflexivity.
Defined.

(** ** The task wrapper: ports *)

Lemma update_ports_spec {L : Library} (procs : list Process) (found : list (list string))
    (ports : gset string) :
  Forall2 (fun process names =>
             ThermosProcessWrapper.ports (mkProcessWrapper _ process) = Ok names)
          procs found ->
  ThermosTaskWrapper.update_ports procs ports = Ok (ports ∪ ⋃ (list_to_set <$> found)).
Proof.
  intros Hall. revert ports.
  induction Hall as [|process names procs found Hp _ IH]; intros ports.
  - cbn. f_equal. symmetry. apply (right_id_L ∅ (∪)).
  - cbn [ThermosTaskWrapper.update_ports]. rewrite Hp. cbn [mbind result_bind].
    rewrite IH. f_equal. rewrite fmap_cons. cbn [union_list].
    symmetry. apply (assoc_L (∪)).
Qed.

(** C2.  [ports()] is the empty set for a task that declares no processes.
    Otherwise, when the scanner returns for every process of the interpolated
    task, [ports()] is the union of what it returned, as a set: a name is in
    it exactly when the scanner found it for some process, and it is there
    once. *)
Theorem task_ports_spec {L : Library} (self : ThermosTaskWrapper) :
  let ti := fst (interpolate (_task self)) in
  (has_processes ti = false -> ThermosTaskWrapper.ports self = Ok ∅)
  /\ (processes ti = [] -> ThermosTaskWrapper.ports self = Ok ∅)
  /\ (forall found : list (list string),
        has_processes ti = true ->
        Forall2 (fun process names =>
                   ThermosProcessWrapper.ports (mkProcessWrapper _ process) = Ok names)
                (processes ti) found ->
        exists ports : gset string,
          ThermosTaskWrapper.ports self = Ok ports
          /\ ports = ⋃ (list_to_set <$> found)
          /\ (forall name, name ∈ ports <-> exists names, names ∈ found /\ name ∈ names)
          /\ NoDup (elements ports)).
Proof.
  intros ti. unfold ThermosTaskWrapper.ports. subst ti.
  destruct (interpolate (_task self)) as [ti refs]. cbn [fst].
  split; [|split].
  - intros ->. reflexivity.
  - intros ->. destruct (has_processes ti); reflexivity.
  - intros found -> Hall. exists (⋃ (list_to_set <$> found)).
    rewrite (update_ports_spec _ _ _ Hall). split; [f_equal; apply (left_id_L ∅ (∪))|].
    split; [reflexivity|]. split; [|apply NoDup_elements].
    intros name. rewrite elem_of_union_list. split.
    + intros (X & HX & Hname). apply list_elem_of_fmap in HX as (names & -> & Hnames).
      exists names. split; [assumption|]. apply elem_of_list_to_set in Hname. assumption.
    + intros (names & Hnames & Hname). exists (list_to_set names). split.
      * apply list_elem_of_fmap. eauto.
      * apply elem_of_list_to_set. assumption.
Qed.

Lemma task_ports_witness :
  ThermosTaskWrapper.ports (mkTaskWrapper _ Samples.web) = Ok {["http"; "admin"]}
  /\ ThermosTaskWrapper.ports (mkTaskWrapper _ Samples.bare) = Ok ∅.
Proof.
  split.
  - destruct (proj2 (proj2 (task_ports_spec (mkTaskWrapper _ Samples.web)))
                [["http"; "admin"; "http"]; ["http"]]) as (ports & Hports & Heq & _).
    + reflexivity.
    + repeat constructor.
    + rewrite Hports, Heq. f_equal.
  - apply (proj1 (task_ports_spec (mkTaskWrapper _ Samples.bare))). reflexivity.
Defined.

(** ** The task wrapper: serialization *)

(** C7.  [to_json] serializes the raw value of the wrapped template without
    interpolating it; [get] returns the raw value of a template whatever is
    bound to it, so this is the raw value of the template the wrapper was
    built from. *)
Theorem to_json_spec {L : Library} (task : Task) (bindings : option (list Binding))
    (strict : bool) (self : ThermosTaskWrapper) :
  get (bound_template task bindings) = get task ->
  ThermosTaskWrapper.__init__ task bindings strict = Ok self ->
  ThermosTaskWrapper.to_json self = json_dumps (get task).
Proof.
  intros Hget Hinit. unfold ThermosTaskWrapper.to_json.
  rewrite init_eq in Hinit.
  destruct (negb (ok (check (bound_template task bindings))) && strict);
    [discriminate|].
  injection Hinit as <-. cbn [_task]. rewrite Hget. reflexivity.
Qed.

Lemma to_json_witness :
  ThermosTaskWrapper.to_json (mkTaskWrapper _ Samples.greeter_www)
  = json_dumps (get Samples.greeter)
  /\ ThermosTaskWrapper.to_json (mkTaskWrapper _ Samples.greeter_www)
     <> interpolated_json (mkTaskWrapper _ Samples.greeter_www).
Proof.
  split.
  - apply (to_json_spec Samples.greeter (Some [Samples.role_www]) true);
      reflexivity.
  - vm_compute. discriminate.
Defined.

(** * Paths and files *)

(** ** Paths *)

Lemma append_cons (a : ascii) (s t : string) : String a s +:+ t = String a (s +:+ t).
Proof. reflexivity. Qed.

Lemma append_nil (t : string) : EmptyString +:+ t = t.
Proof. reflexivity. Qed.

Lemma append_assoc (s t u : string) : (s +:+ t) +:+ u = s +:+ (t +:+ u).
Proof. induction s as [|a s IH]; [reflexivity|]. rewrite !append_cons, IH. reflexivity. Qed.

Lemma rpartition_spec (p : string) :
  p = fst (rpartition p) +:+ snd (rpartition p)
  /\ occurs "/" (snd (rpartition p)) = false
  /\ (fst (rpartition p) = EmptyString
      \/ exists h0, fst (rpartition p) = h0 +:+ "/").
Proof.
  induction p as [|a s (IHeq & IHfree & IHhead)]; cbn [rpartition].
  - split; [reflexivity|]. split; [reflexivity|]. left. reflexivity.
  - destruct (occurs "/" s) eqn:Hocc.
    + destruct (rpartition s) as [head tail]. cbn [fst snd] in *.
      split; [rewrite append_cons; f_equal; exact IHeq|]. split; [exact IHfree|]. right.
      destruct IHhead as [->|[h0 ->]].
      * rewrite append_nil in IHeq. subst s. congruence.
      * exists (String a h0). reflexivity.
    + destruct (bool_decide (a = "/"%char)) eqn:Ha; cbn [fst snd].
      * apply bool_decide_eq_true in Ha. subst a.
        split; [reflexivity|]. split; [exact Hocc|]. right. exists EmptyString. reflexivity.
      * split; [reflexivity|]. split; [cbn; rewrite Ha; exact Hocc|]. left. reflexivity.
Qed.

Lemma names_slash_free (t : string) :
  occurs "/" t = false -> names t = if nonempty t then [t] else [].
Proof.
  induction t as [|a t IH]; cbn; [reflexivity|].
  destruct (bool_decide (a = "/"%char)); [discriminate|]. cbn. intros Hfree.
  rewrite (IH Hfree). destruct t as [|b t]; [reflexivity|].
  cbn in Hfree |- *. destruct (bool_decide (b = "/"%char)); [discriminate | reflexivity].
Qed.

Lemma names_head_nonempty (a : ascii) (s : string) :
  bool_decide (a = "/"%char) = false -> names (String a s) <> [].
Proof.
  intros Ha. cbn. rewrite Ha. destruct (starts_with_slash s); [discriminate|].
  destruct (names s); discriminate.
Qed.

(** A slash separates names. *)
Lemma names_app_slash (h0 t : string) :
  names (h0 +:+ String "/" t) = names h0 ++ names t.
Proof.
  induction h0 as [|a h0 IH]; [reflexivity|].
  rewrite append_cons. cbn [names]. destruct (bool_decide (a = "/"%char)); [exact IH|].
  rewrite IH. destruct h0 as [|b h0]; [reflexivity|].
  rewrite append_cons. cbn [starts_with_slash].
  destruct (bool_decide (b = "/"%char)) eqn:Hb; [reflexivity|].
  pose proof (names_head_nonempty b h0 Hb) as Hne.
  destruct (names (String b h0)); [contradiction | reflexivity].
Qed.

Lemma names_all_slashes (h : string) : all_slashes h = true -> names h = [].
Proof.
  induction h as [|a h IH]; cbn; [reflexivity|].
  destruct (bool_decide (a = "/"%char)); [exact IH | discriminate].
Qed.

Lemma rstrip_empty (h : string) : rstrip h = EmptyString -> all_slashes h = true.
Proof.
  induction h as [|a h IH]; cbn; [reflexivity|].
  destruct (rstrip h); [|discriminate].
  destruct (bool_decide (a = "/"%char)); [intros _; exact (IH eq_refl) | discriminate].
Qed.

Lemma rstrip_starts (h : string) :
  rstrip h <> EmptyString -> starts_with_slash (rstrip h) = starts_with_slash h.
Proof.
  destruct h as [|a h]; cbn; [reflexivity|].
  destruct (rstrip h); [|reflexivity].
  destruct (bool_decide (a = "/"%char)) eqn:Ha; [contradiction|]. cbn. rewrite Ha. reflexivity.
Qed.

Lemma names_rstrip (h : string) : names (rstrip h) = names h.
Proof.
  induction h as [|a h IH]; [reflexivity|]. cbn [rstrip].
  destruct (rstrip h) as [|b r] eqn:Hr.
  - pose proof (names_all_slashes h (rstrip_empty h Hr)) as Hnil.
    destruct (bool_decide (a = "/"%char)) eqn:Ha; cbn; rewrite Ha, Hnil.
    + reflexivity.
    + destruct (starts_with_slash h); reflexivity.
  - assert (Hstart : starts_with_slash (String b r) = starts_with_slash h).
    { rewrite <- Hr. apply rstrip_starts. rewrite Hr. discriminate. }
    remember (String b r) as r' eqn:Hr'.
    cbn [names]. destruct (bool_decide (a = "/"%char)); [exact IH|].
    rewrite Hstart, IH. reflexivity.
Qed.

Lemma rstrip_not_slash (h : string) : ends_with_slash (rstrip h) = false.
Proof.
  induction h as [|a h IH]; [reflexivity|]. cbn [rstrip].
  destruct (rstrip h) as [|b r].
  - destruct (bool_decide (a = "/"%char)) eqn:Ha; cbn; [reflexivity | exact Ha].
  - exact IH.
Qed.

Lemma ends_with_slash_app (h0 : string) : ends_with_slash (h0 +:+ "/") = true.
Proof.
  induction h0 as [|a h0 IH]; [reflexivity|].
  rewrite append_cons. cbn [ends_with_slash]. destruct (h0 +:+ "/") eqn:Happ; [|exact IH].
  destruct h0; discriminate.
Qed.

Lemma ends_with_slash_tail (h t : string) :
  nonempty t = true -> ends_with_slash (h +:+ t) = ends_with_slash t.
Proof.
  intros Ht. induction h as [|a h IH]; [reflexivity|].
  rewrite append_cons. cbn [ends_with_slash]. destruct (h +:+ t) eqn:Happ; [|exact IH].
  destruct h, t; discriminate.
Qed.

Lemma slash_free_end (t : string) : occurs "/" t = false -> ends_with_slash t = false.
Proof.
  induction t as [|a t IH]; [reflexivity|]. cbn.
  destruct (bool_decide (a = "/"%char)); [discriminate|]. cbn. intros Hfree.
  destruct t; [reflexivity | exact (IH Hfree)].
Qed.

(** The head and the tail of [os.path.split] name what the path names. *)
Lemma split_names (p : string) :
  names p = names (fst (split p)) ++ if nonempty (snd (split p)) then [snd (split p)] else [].
Proof.
  unfold split. destruct (rpartition_spec p) as (Heq & Hfree & Hhead).
  destruct (rpartition p) as [head tail]. cbn [fst snd] in *.
  assert (Hnames : names p = names head ++ names tail).
  { rewrite Heq at 1. destruct Hhead as [->|[h0 ->]]; [reflexivity|].
    rewrite append_assoc. change ("/" +:+ tail) with (String "/" tail).
    change (h0 +:+ "/") with (h0 +:+ String "/" EmptyString).
    rewrite !names_app_slash. cbn. rewrite app_nil_r. reflexivity. }
  rewrite Hnames, (names_slash_free tail Hfree).
  destruct (nonempty head && negb (all_slashes head)); cbn [fst snd];
    rewrite ?names_rstrip; reflexivity.
Qed.

Lemma append_empty_r (s : string) : s +:+ EmptyString = s.
Proof. induction s as [|a s IH]; [reflexivity|]. rewrite append_cons, IH. reflexivity. Qed.

Lemma starts_with_slash_app (h t : string) :
  nonempty h = true -> starts_with_slash (h +:+ t) = starts_with_slash h.
Proof. destruct h; [discriminate | reflexivity]. Qed.

Lemma split_absolute (p : string) :
  nonempty (fst (split p)) = true ->
  starts_with_slash p = starts_with_slash (fst (split p)).
Proof.
  unfold split. destruct (rpartition_spec p) as (Heq & _ & _).
  destruct (rpartition p) as [head tail]. cbn [fst snd] in *.
  destruct head as [|a head]; [discriminate|]. intros Hne.
  rewrite Heq at 1. rewrite starts_with_slash_app by reflexivity.
  destruct (nonempty (String a head) && negb (all_slashes (String a head))); [|reflexivity].
  symmetry. apply rstrip_starts. intros Hr. rewrite Hr in Hne. discriminate.
Qed.

Lemma split_tail_free (p : string) : occurs "/" (snd (split p)) = false.
Proof.
  unfold split. destruct (rpartition_spec p) as (_ & Hfree & _).
  destruct (rpartition p) as [head tail]. exact Hfree.
Qed.

Lemma split_head_end (p : string) :
  ends_with_slash (fst (split p)) = true -> all_slashes (fst (split p)) = true.
Proof.
  unfold split. destruct (rpartition p) as [head tail]. cbn [fst].
  destruct (nonempty head && negb (all_slashes head)) eqn:Hcond.
  - rewrite rstrip_not_slash. discriminate.
  - intros Hend. destruct head as [|a head]; [reflexivity|].
    cbn [nonempty andb] in Hcond. apply negb_false_iff in Hcond. exact Hcond.
Qed.

Lemma split_end (p : string) :
  nonempty p = true -> ends_with_slash p = negb (nonempty (snd (split p))).
Proof.
  unfold split. destruct (rpartition_spec p) as (Heq & Hfree & Hhead).
  destruct (rpartition p) as [head tail]. cbn [fst snd] in *. intros Hp.
  destruct tail as [|b tail].
  - rewrite append_empty_r in Heq. subst head.
    destruct Hhead as [->|[h0 ->]]; [discriminate|]. apply ends_with_slash_app.
  - rewrite Heq, ends_with_slash_tail by reflexivity. apply slash_free_end. exact Hfree.
Qed.

Lemma rpartition_bare (p : string) :
  occurs "/" p = false -> rpartition p = (EmptyString, p).
Proof.
  destruct p as [|a s]; [reflexivity|]. cbn.
  destruct (bool_decide (a = "/"%char)); [discriminate|]. cbn. intros ->. reflexivity.
Qed.

(** A path without a slash has no directory part, and only such a path. *)
Lemma dirname_bare (p : string) : dirname p = EmptyString <-> occurs "/" p = false.
Proof.
  unfold dirname, split. split.
  - destruct (rpartition_spec p) as (Heq & Hfree & Hhead).
    destruct (rpartition p) as [head tail]. cbn [fst snd] in *.
    destruct (nonempty head && negb (all_slashes head)) eqn:Hcond; intros Hd.
    + apply rstrip_empty in Hd. rewrite Hd in Hcond.
      rewrite andb_false_r in Hcond. discriminate.
    + subst head. rewrite append_nil in Heq. subst p. exact Hfree.
  - intros Hfree. rewrite (rpartition_bare p Hfree). reflexivity.
Qed.

(** ** The tree *)

Lemma descend_app (n : node) (a b : list string) :
  descend n (a ++ b) = descend n a ≫= (fun m => descend m b).
Proof.
  revert n. induction a as [|name a IH]; intros n; [reflexivity|].
  cbn [app descend]. destruct n as [| |entries]; try reflexivity.
  destruct (entries !! name) as [child|]; [apply IH | reflexivity].
Qed.

(** What leads somewhere leads through directories. *)
Lemma descend_through (n : node) (a b : list string) :
  is_Some (descend n (a ++ b)) -> b <> [] -> is_dir (descend n a) = true.
Proof.
  rewrite descend_app. destruct (descend n a) as [m|]; cbn; [|intros [? ?]; discriminate].
  destruct b as [|name b]; [contradiction|]. intros [x Hx] _.
  destruct m; cbn in Hx; try discriminate. reflexivity.
Qed.

Lemma is_dir_removelast (n : node) (path : list string) :
  is_dir (descend n path) = true -> is_dir (descend n (removelast path)) = true.
Proof.
  intros Hdir. destruct path as [|name path] using rev_ind; [exact Hdir|].
  rewrite removelast_last. apply (descend_through n path [name]); [|discriminate].
  destruct (descend n (path ++ [name])); [eauto | discriminate].
Qed.

Lemma place_cons (entries : gmap string node) (c : string) (path : list string)
    (new : node) :
  path <> [] ->
  place (Directory entries) (c :: path) new
  = match entries !! c with
    | Some child => Directory (<[c := place child path new]> entries)
    | None => Directory entries
    end.
Proof. destruct path; [contradiction | reflexivity]. Qed.

Lemma snoc_not_nil {A} (l : list A) (x : A) : l ++ [x] <> [].
Proof. destruct l; discriminate. Qed.

Lemma place_hit (n : node) (parent : list string) (name : string) (new : node) :
  is_dir (descend n parent) = true ->
  descend (place n (parent ++ [name]) new) (parent ++ [name]) = Some new.
Proof.
  revert n. induction parent as [|c parent IH]; intros n Hdir.
  - destruct n as [| |entries]; try discriminate. cbn.
    rewrite lookup_insert_eq. reflexivity.
  - destruct n as [| |entries]; try discriminate. cbn in Hdir.
    destruct (entries !! c) as [child|] eqn:Hc; [|discriminate]. cbn in Hdir.
    rewrite <- app_comm_cons, place_cons by apply snoc_not_nil.
    rewrite Hc. cbn [descend]. rewrite lookup_insert_eq. cbn [mbind option_bind].
    apply IH. exact Hdir.
Qed.

(** A file, or an empty directory, put where there was nothing or a file
    changes nothing elsewhere. *)
Lemma place_stat (n : node) (parent : list string) (name : string) (new : node)
    (q : list string) :
  is_dir (descend n parent) = true ->
  is_dir (descend n (parent ++ [name])) = false ->
  (forall x, descend new [x] = None) ->
  q <> parent ++ [name] ->
  stat (place n (parent ++ [name]) new) q = stat n q.
Proof.
  unfold stat. intros Hdir Hold Hnew. revert n q Hdir Hold.
  induction parent as [|c parent IH]; intros n q Hdir Hold Hq.
  - destruct n as [| |entries]; try discriminate. cbn [app place].
    destruct q as [|x q]; [reflexivity|]. cbn [descend].
    destruct (decide (x = name)) as [->|Hne].
    + rewrite lookup_insert_eq. cbn.
      destruct q as [|y q]; [contradiction|].
      assert (Hnone : descend new (y :: q) = None).
      { change (y :: q) with ([y] ++ q). rewrite descend_app, Hnew. reflexivity. }
      rewrite Hnone. cbn in Hold.
      destruct (entries !! name) as [[| |sub]|]; cbn in *; try reflexivity. discriminate.
    + rewrite lookup_insert_ne by congruence. reflexivity.
  - destruct n as [| |entries]; try discriminate. cbn in Hdir.
    destruct (entries !! c) as [child|] eqn:Hc; [|discriminate]. cbn in Hdir.
    rewrite <- app_comm_cons, place_cons by apply snoc_not_nil.
    rewrite Hc.
    destruct q as [|x q]; [reflexivity|]. cbn [descend].
    destruct (decide (x = c)) as [->|Hne].
    + rewrite lookup_insert_eq, Hc. cbn [mbind option_bind]. apply IH.
      * exact Hdir.
      * rewrite <- app_comm_cons in Hold. cbn [descend] in Hold.
        rewrite Hc in Hold. exact Hold.
      * intros ->. apply Hq. reflexivity.
    + rewrite lookup_insert_ne by congruence. reflexivity.
Qed.


Lemma place_directory (entries : gmap string node) (parent : list string) (name : string)
    (new : node) :
  exists entries', place (Directory entries) (parent ++ [name]) new = Directory entries'.
Proof.
  destruct parent as [|c parent]; [cbn; eauto|].
  rewrite <- app_comm_cons, place_cons by apply snoc_not_nil.
  destruct (entries !! c); eauto.
Qed.

(** ** The file system *)

Lemma is_dir_kind (fs : filesystem) (q : list string) :
  is_dir (node_at fs q) = match kind_at fs q with Some KDir => true | _ => false end.
Proof.
  unfold kind_at, stat, node_at. destruct (descend (tree fs) q) as [[| |]|]; reflexivity.
Qed.

Lemma node_at_root (fs : filesystem) : is_dir (node_at fs []) = true.
Proof. reflexivity. Qed.

Lemma set_at_new (fs : filesystem) (parent : list string) (name : string) (new : node) :
  is_dir (node_at fs parent) = true ->
  is_dir (node_at fs (parent ++ [name])) = false ->
  (forall x, descend new [x] = None) ->
  cwd (set_at fs (parent ++ [name]) new) = cwd fs
  /\ node_at (set_at fs (parent ++ [name]) new) (parent ++ [name]) = Some new
  /\ forall q, q <> parent ++ [name] ->
       kind_at (set_at fs (parent ++ [name]) new) q = kind_at fs q.
Proof.
  intros Hdir Hold Hnew. unfold set_at, kind_at, node_at in *.
  pose proof (place_hit (tree fs) parent name new Hdir) as Hhit.
  pose proof (fun q => place_stat (tree fs) parent name new q Hdir Hold Hnew) as Hstat.
  destruct (place_directory (root fs) parent name new) as [entries' Hplace].
  unfold tree in *. rewrite Hplace in *. cbn [root cwd].
  split; [reflexivity|]. split; [exact Hhit | exact Hstat].
Qed.

Lemma extends_refl (fs : filesystem) : extends fs fs.
Proof. split; [reflexivity | auto]. Qed.

Lemma extends_trans (fs1 fs2 fs3 : filesystem) :
  extends fs1 fs2 -> extends fs2 fs3 -> extends fs1 fs3.
Proof. intros [Hc1 H1] [Hc2 H2]. split; [congruence | auto]. Qed.


Lemma walk_mono (fs fs' : filesystem) (ns : list string) :
  (forall q, is_dir (node_at fs q) = true -> is_dir (node_at fs' q) = true) ->
  forall cur target, walk fs cur ns = inr target -> walk fs' cur ns = inr target.
Proof.
  intros Hdirs. induction ns as [|name ns IH]; intros cur target; cbn [walk]; [auto|].
  pose proof (Hdirs cur) as Hcur.
  destruct (node_at fs cur) as [[| |entries]|]; try discriminate.
  specialize (Hcur eq_refl).
  destruct (node_at fs' cur) as [[| |entries']|]; try discriminate. apply IH.
Qed.

Lemma walk_app (fs : filesystem) (a b : list string) (cur : list string) :
  walk fs cur (a ++ b)
  = match walk fs cur a with
    | inr mid => walk fs mid b
    | inl e => inl e
    end.
Proof.
  revert cur. induction a as [|name a IH]; intros cur; [reflexivity|].
  cbn [app walk]. destruct (node_at fs cur) as [[| |entries]|]; try reflexivity. apply IH.
Qed.

Lemma walk_cons_dir (fs : filesystem) (cur : list string) (name : string)
    (ns : list string) (target : list string) :
  walk fs cur (name :: ns) = inr target -> is_dir (node_at fs cur) = true.
Proof.
  cbn [walk]. destruct (node_at fs cur) as [[| |entries]|]; try discriminate. reflexivity.
Qed.

(** What a path leads to, when it is no directory, lies in a directory
    that is there. *)
Lemma walk_target (fs : filesystem) (cur : list string) (ns : list string)
    (target : list string) :
  ns <> [] ->
  walk fs cur ns = inr target ->
  is_dir (node_at fs target) = false ->
  exists parent name,
    target = parent ++ [name] /\ is_dir (node_at fs parent) = true.
Proof.
  intros Hne. destruct ns as [|x ns _] using rev_ind; [contradiction|].
  rewrite walk_app. destruct (walk fs cur ns) as [e|mid]; [discriminate|].
  intros Hlast Hfile. pose proof (walk_cons_dir _ _ _ _ _ Hlast) as Hmid.
  cbn [walk] in Hlast. destruct (node_at fs mid) as [[| |entries]|] eqn:Hnode; try discriminate.
  injection Hlast as <-. unfold step in *.
  destruct (bool_decide (x = ".")).
  - unfold is_dir in Hfile. rewrite Hnode in Hfile. discriminate.
  - destruct (bool_decide (x = "..")).
    + unfold node_at in *. rewrite (is_dir_removelast (tree fs) mid) in Hfile; [discriminate|].
      rewrite Hnode. reflexivity.
    + exists mid, x. split; [reflexivity | rewrite Hnode; reflexivity].
Qed.

Lemma names_nil_absolute (p : string) :
  names p = [] -> nonempty p = true -> starts_with_slash p = true.
Proof.
  destruct p as [|a s]; [discriminate|]. intros Hnames _. cbn.
  destruct (bool_decide (a = "/"%char)) eqn:Ha; [reflexivity|].
  exfalso. exact (names_head_nonempty a s Ha Hnames).
Qed.

Lemma lookup_target (fs : filesystem) (p : string) (slash : bool) (target : list string) :
  lookup_path fs p slash = inr target ->
  is_dir (node_at fs target) = false ->
  exists parent name,
    target = parent ++ [name] /\ is_dir (node_at fs parent) = true.
Proof.
  unfold lookup_path. destruct p as [|a s]; [discriminate|].
  set (p := String a s). set (marker := if slash && ends_with_slash p then ["."] else []).
  destruct (names p ++ marker) as [|x ns] eqn:Hns.
  - apply app_eq_nil in Hns as [Hnames _].
    rewrite (names_nil_absolute p Hnames eq_refl). cbn [walk]. intros [= <-]. discriminate.
  - apply walk_target. discriminate.
Qed.

Lemma lookup_path_mono (fs fs' : filesystem) (p : string) (slash : bool)
    (target : list string) :
  cwd fs' = cwd fs ->
  (forall q, is_dir (node_at fs q) = true -> is_dir (node_at fs' q) = true) ->
  lookup_path fs p slash = inr target -> lookup_path fs' p slash = inr target.
Proof.
  intros Hcwd Hdirs. unfold lookup_path. destruct p as [|a s]; [discriminate|].
  rewrite Hcwd. apply walk_mono. exact Hdirs.
Qed.

(** ** Reading and writing *)

Lemma write_file_inv (fs fs' : filesystem) (p contents : string) :
  write_file fs p contents = Ok fs' ->
  exists parent name,
    lookup_path fs p true = inr (parent ++ [name])
    /\ is_dir (node_at fs parent) = true
    /\ is_dir (node_at fs (parent ++ [name])) = false
    /\ fs' = set_at fs (parent ++ [name]) (RegularFile contents).
Proof.
  unfold write_file. destruct (lookup_path fs p true) as [e|target] eqn:Hlookup; [discriminate|].
  intros Hwrite.
  assert (Hfile : is_dir (node_at fs target) = false).
  { destruct (node_at fs target) as [[| |entries]|]; try reflexivity. discriminate. }
  destruct (lookup_target _ _ _ _ Hlookup Hfile) as (parent & name & -> & Hdir).
  exists parent, name. split; [reflexivity|]. split; [exact Hdir|]. split; [exact Hfile|].
  destruct (node_at fs (parent ++ [name])) as [[| |entries]|]; congruence.
Qed.

Lemma write_file_effect (fs fs' : filesystem) (p contents : string) :
  write_file fs p contents = Ok fs' ->
  exists target,
    lookup_path fs p true = inr target
    /\ is_dir (node_at fs target) = false
    /\ cwd fs' = cwd fs
    /\ node_at fs' target = Some (RegularFile contents)
    /\ forall q, q <> target -> kind_at fs' q = kind_at fs q.
Proof.
  intros Hwrite.
  destruct (write_file_inv _ _ _ _ Hwrite) as (parent & name & Hlookup & Hdir & Hold & ->).
  destruct (set_at_new fs parent name (RegularFile contents) Hdir Hold)
    as (Hcwd & Hnew & Hrest); [reflexivity|].
  exists (parent ++ [name]). auto.
Qed.

Lemma write_file_dirs (fs fs' : filesystem) (p contents : string) :
  write_file fs p contents = Ok fs' ->
  forall q, is_dir (node_at fs q) = true -> is_dir (node_at fs' q) = true.
Proof.
  intros Hwrite q Hq.
  destruct (write_file_effect _ _ _ _ Hwrite) as (target & _ & Hold & _ & _ & Hrest).
  rewrite is_dir_kind, Hrest, <- is_dir_kind; [exact Hq|]. intros ->. congruence.
Qed.

(** What was written is read back. *)
Lemma read_after_write (fs fs' : filesystem) (p contents : string) :
  write_file fs p contents = Ok fs' -> read_file fs' p = Ok contents.
Proof.
  intros Hwrite.
  destruct (write_file_effect _ _ _ _ Hwrite) as (target & Hlookup & _ & Hcwd & Hnew & _).
  unfold read_file.
  rewrite (lookup_path_mono fs fs' p true target Hcwd (write_file_dirs _ _ _ _ Hwrite) Hlookup).
  rewrite Hnew. reflexivity.
Qed.




Lemma exists_of_read (fs : filesystem) (p contents : string) :
  read_file fs p = Ok contents -> exists_ fs p = true.
Proof.
  unfold read_file, exists_. destruct (lookup_path fs p true) as [e|target]; [discriminate|].
  destruct (node_at fs target); [|discriminate]. intros _. apply bool_decide_eq_true. eauto.
Qed.

(** ** Directories *)

Lemma exists_inv (fs : filesystem) (p : string) :
  exists_ fs p = true ->
  nonempty p = true
  /\ exists target,
       walk fs (if starts_with_slash p then [] else cwd fs)
         (names p ++ if ends_with_slash p then ["."] else []) = inr target
       /\ is_Some (node_at fs target).
Proof.
  unfold exists_, lookup_path. destruct p as [|a s]; [discriminate|].
  cbn [andb]. set (p := String a s).
  destruct (walk fs _ _) as [e|target]; [discriminate|].
  intros Hsome. apply bool_decide_eq_true in Hsome. split; [reflexivity|]. eauto.
Qed.

Lemma exists_intro (fs : filesystem) (p : string) (target : list string) :
  nonempty p = true ->
  walk fs (if starts_with_slash p then [] else cwd fs)
    (names p ++ if ends_with_slash p then ["."] else []) = inr target ->
  is_Some (node_at fs target) ->
  exists_ fs p = true.
Proof.
  unfold exists_, lookup_path. destruct p as [|a s]; [discriminate|].
  cbn [andb]. intros _ -> Hsome. apply bool_decide_eq_true. exact Hsome.
Qed.

Lemma walk_prefix_exists (fs : filesystem) (cur : list string) (a b : list string)
    (target : list string) :
  walk fs cur (a ++ b) = inr target ->
  is_Some (node_at fs target) ->
  exists mid, walk fs cur a = inr mid /\ is_Some (node_at fs mid).
Proof.
  rewrite walk_app. destruct (walk fs cur a) as [e|mid]; [discriminate|].
  intros Hrest Hsome. exists mid. split; [reflexivity|].
  destruct b as [|x b]; [injection Hrest as ->; exact Hsome|].
  pose proof (walk_cons_dir _ _ _ _ _ Hrest) as Hdir.
  destruct (node_at fs mid); [eauto | discriminate].
Qed.

(** What a path names lies in what its head names. *)
Lemma exists_head (fs : filesystem) (p : string) :
  exists_ fs p = true ->
  nonempty (fst (split p)) = true ->
  exists_ fs (fst (split p)) = true.
Proof.
  intros Hp Hhead. destruct (exists_inv _ _ Hp) as (Hne & target & Hwalk & Hsome).
  rewrite (split_absolute p Hhead), (split_names p), <- app_assoc in Hwalk.
  destruct (walk_prefix_exists _ _ _ _ _ Hwalk Hsome) as (mid & Hmid & Hthere).
  destruct (ends_with_slash (fst (split p))) eqn:Hend.
  - pose proof (split_head_end p Hend) as Hall.
    apply (exists_intro fs _ []); [exact Hhead| |eauto].
    rewrite Hend, (names_all_slashes _ Hall).
    destruct (fst (split p)) as [|a h]; [discriminate|]. cbn in Hall |- *.
    destruct (bool_decide (a = "/"%char)); [reflexivity | discriminate].
  - apply (exists_intro fs _ mid); [exact Hhead| |exact Hthere].
    rewrite Hend, app_nil_r. exact Hmid.
Qed.

Lemma mkdir_exists (fs : filesystem) (p : string) :
  exists_ fs p = true -> mkdir fs p = Raise (OSError EEXIST p).
Proof.
  intros Hp. destruct (exists_inv _ _ Hp) as (Hne & target & Hwalk & Hsome).
  destruct (walk_prefix_exists _ _ _ _ _ Hwalk Hsome) as (mid & Hmid & [n Hn]).
  unfold mkdir, lookup_path. destruct p as [|a s]; [discriminate|].
  cbn [andb]. rewrite app_nil_r, Hmid, Hn. reflexivity.
Qed.

Lemma makedirs_eq (fuel : nat) (name : string) (fs : filesystem) :
  makedirs fuel name fs
  = let '(head, tail) := split name in
    let '(head, tail) := if nonempty tail then (head, tail) else split head in
    if nonempty head && nonempty tail && negb (exists_ fs head) then
      match fuel with
      | O => (Raise (RuntimeError "maximum recursion depth exceeded"), fs)
      | S fuel' =>
          let '(r, fs1) := makedirs fuel' head fs in
          let rest :=
            if bool_decide (tail = ".") then (Ok tt, fs1)
            else match mkdir fs1 name with
                 | Ok fs2 => (Ok tt, fs2)
                 | Raise e => (Raise e, fs1)
                 end in
          match r with
          | Ok _ => rest
          | Raise (OSError code _ as e) =>
              if bool_decide (code = EEXIST) then rest else (Raise e, fs1)
          | Raise e => (Raise e, fs1)
          end
      end
    else
      match mkdir fs name with
      | Ok fs1 => (Ok tt, fs1)
      | Raise e => (Raise e, fs)
      end.
Proof. destruct fuel; reflexivity. Qed.

(** For a directory that is there, [os.makedirs] fails with [EEXIST] and
    makes nothing. *)
Lemma makedirs_exists (fuel : nat) (name : string) (fs : filesystem) :
  exists_ fs name = true ->
  makedirs fuel name fs = (Raise (OSError EEXIST name), fs).
Proof.
  intros Hname. rewrite makedirs_eq.
  pose proof (exists_head fs name Hname) as Hhead.
  destruct (split name) as [h1 t1] eqn:Hsplit. cbn [fst] in Hhead.
  assert (Hcond : forall head tail,
             (if nonempty t1 then (h1, t1) else split h1) = (head, tail) ->
             nonempty head && nonempty tail && negb (exists_ fs head) = false).
  { intros head tail Hpair. destruct (nonempty head) eqn:Hh; [|reflexivity].
    destruct (nonempty tail); [|reflexivity]. cbn [andb]. apply negb_false_iff.
    destruct (nonempty t1).
    - injection Hpair as <- <-. exact (Hhead Hh).
    - destruct (nonempty h1) eqn:Hh1.
      + pose proof (exists_head fs h1 (Hhead eq_refl)) as Hnext.
        rewrite Hpair in Hnext. exact (Hnext Hh).
      + destruct h1; [|discriminate]. cbn in Hpair. injection Hpair as <- <-.
        discriminate. }
  destruct (if nonempty t1 then (h1, t1) else split h1) as [head tail].
  rewrite (Hcond head tail eq_refl), (mkdir_exists fs name Hname). reflexivity.
Qed.

Lemma safe_mkdir_exists (directory : string) (fs : filesystem) :
  exists_ fs directory = true -> safe_mkdir directory fs = (Ok tt, fs).
Proof.
  intros Hthere. unfold safe_mkdir. rewrite (makedirs_exists _ _ _ Hthere). reflexivity.
Qed.

(** No directory has the empty name. *)
Lemma safe_mkdir_empty (fs : filesystem) :
  safe_mkdir EmptyString fs = (Raise (OSError ENOENT EmptyString), fs).
Proof. reflexivity. Qed.

Lemma mkdir_extends (fs fs' : filesystem) (p : string) :
  mkdir fs p = Ok fs' -> extends fs fs'.
Proof.
  unfold mkdir. destruct (lookup_path fs p false) as [e|target] eqn:Hlookup; [discriminate|].
  destruct (node_at fs target) as [n|] eqn:Hnode; [discriminate|]. intros [= <-].
  assert (Hfile : is_dir (node_at fs target) = false) by (rewrite Hnode; reflexivity).
  destruct (lookup_target _ _ _ _ Hlookup Hfile) as (parent & name & -> & Hdir).
  destruct (set_at_new fs parent name (Directory ∅) Hdir Hfile) as (Hcwd & _ & Hrest);
    [reflexivity|].
  split; [exact Hcwd|]. intros q k Hq. rewrite Hrest; [exact Hq|].
  intros ->. unfold kind_at, stat, node_at in *. rewrite Hnode in Hq. discriminate.
Qed.

(** [os.makedirs] makes directories, and leaves what is there as it is. *)
Lemma makedirs_extends (fuel : nat) (name : string) (fs : filesystem) :
  extends fs (snd (makedirs fuel name fs)).
Proof.
  revert name fs. induction fuel as [|fuel IH]; intros name fs; rewrite makedirs_eq;
    destruct (split name) as [h1 t1];
    destruct (if nonempty t1 then (h1, t1) else split h1) as [head tail];
    destruct (nonempty head && nonempty tail && negb (exists_ fs head)).
  - apply extends_refl.
  - destruct (mkdir fs name) as [fs1|e] eqn:Hmk; cbn [snd];
      [exact (mkdir_extends _ _ _ Hmk) | apply extends_refl].
  - specialize (IH head fs). destruct (makedirs fuel head fs) as [r fs1]. cbn [snd] in IH.
    assert (Hrest : extends fs
              (snd (if bool_decide (tail = ".") then (Ok tt, fs1)
                    else match mkdir fs1 name with
                         | Ok fs2 => (Ok tt, fs2)
                         | Raise e => (Raise e, fs1)
                         end))).
    { destruct (bool_decide (tail = ".")); [exact IH|].
      destruct (mkdir fs1 name) as [fs2|e] eqn:Hmk; cbn [snd]; [|exact IH].
      exact (extends_trans _ _ _ IH (mkdir_extends _ _ _ Hmk)). }
    destruct r as [[]|e]; [exact Hrest|].
    destruct e; try exact IH. destruct (bool_decide (code = EEXIST)); [exact Hrest | exact IH].
  - destruct (mkdir fs name) as [fs1|e] eqn:Hmk; cbn [snd];
      [exact (mkdir_extends _ _ _ Hmk) | apply extends_refl].
Qed.

Lemma safe_mkdir_extends (directory : string) (fs : filesystem) :
  extends fs (snd (safe_mkdir directory fs)).
Proof.
  unfold safe_mkdir.
  pose proof (makedirs_extends (String.length directory) directory fs) as Hext.
  destruct (makedirs _ directory fs) as [r fs1]. cbn [snd] in Hext.
  destruct r as [[]|e]; [exact Hext|].
  destruct e; try exact Hext. destruct (bool_decide (code = EEXIST)); exact Hext.
Qed.

(** ** safe_open *)

(** A file name without a directory part cannot be opened. *)
Lemma safe_open_read_bare (filename : string) (fs : filesystem) :
  occurs "/" filename = false ->
  safe_open_read filename fs = (Raise (OSError ENOENT EmptyString), fs).
Proof.
  intros Hbare. unfold safe_open_read. rewrite (proj2 (dirname_bare filename) Hbare).
  reflexivity.
Qed.


Lemma safe_open_write_inv (filename contents : string) (fs fs' : filesystem) :
  safe_open_write filename contents fs = (Ok tt, fs') ->
  nonempty (dirname filename) = true
  /\ extends fs (snd (safe_mkdir (dirname filename) fs))
  /\ write_file (snd (safe_mkdir (dirname filename) fs)) filename contents = Ok fs'.
Proof.
  unfold safe_open_write. intros Hwrite.
  assert (Hdir : nonempty (dirname filename) = true).
  { destruct (dirname filename); [|reflexivity].
    rewrite safe_mkdir_empty in Hwrite. discriminate. }
  split; [exact Hdir|]. split; [apply safe_mkdir_extends|].
  destruct (safe_mkdir (dirname filename) fs) as [r fs1]. cbn [snd].
  destruct r as [[]|e]; [|discriminate].
  destruct (write_file fs1 filename contents) as [fs2|e]; [|discriminate].
  injection Hwrite as <-. reflexivity.
Qed.

(** After [safe_open] has written a file, [safe_open] reads it back and
    makes no directory. *)
Lemma safe_open_write_read (filename contents : string) (fs fs' : filesystem) :
  safe_open_write filename contents fs = (Ok tt, fs') ->
  safe_open_read filename fs' = (Ok contents, fs').
Proof.
  intros Hwrite.
  destruct (safe_open_write_inv _ _ _ _ Hwrite) as (Hdir & _ & Hfile).
  pose proof (read_after_write _ _ _ _ Hfile) as Hread.
  assert (Hthere : exists_ fs' (dirname filename) = true)
    by exact (exists_head fs' filename (exists_of_read _ _ _ Hread) Hdir).
  unfold safe_open_read. rewrite (safe_mkdir_exists _ _ Hthere), Hread. reflexivity.
Qed.



(** ** The recursion of os.makedirs *)

Lemma append_length (s t : string) :
  String.length (s +:+ t) = String.length s + String.length t.
Proof. induction s as [|a s IH]; [reflexivity|]. rewrite append_cons. cbn. rewrite IH. reflexivity. Qed.

Lemma rstrip_length (h : string) : String.length (rstrip h) <= String.length h.
Proof.
  induction h as [|a h IH]; [reflexivity|]. cbn [rstrip].
  destruct (rstrip h) as [|b r].
  - destruct (bool_decide (a = "/"%char)); cbn; lia.
  - cbn in *. lia.
Qed.

Lemma split_length (p : string) :
  String.length (fst (split p)) + String.length (snd (split p)) <= String.length p.
Proof.
  unfold split. destruct (rpartition_spec p) as (Heq & _ & _).
  destruct (rpartition p) as [head tail]. cbn [fst snd] in *.
  rewrite Heq, append_length.
  destruct (nonempty head && negb (all_slashes head)); [|lia].
  pose proof (rstrip_length head). lia.
Qed.

Lemma nonempty_length (s : string) : nonempty s = true -> 0 < String.length s.
Proof. destruct s; [discriminate | cbn; lia]. Qed.

(** The length of the name is fuel enough: with more, [os.makedirs] does
    the same. *)
Lemma makedirs_fuel (fuel fuel' : nat) (name : string) (fs : filesystem) :
  String.length name <= fuel -> String.length name <= fuel' ->
  makedirs fuel name fs = makedirs fuel' name fs.
Proof.
  revert fuel' name fs. induction fuel as [|fuel IH]; intros fuel' name fs Hfuel Hfuel';
    rewrite (makedirs_eq _ name), (makedirs_eq fuel' name);
    pose proof (split_length name) as Hlen;
    destruct (split name) as [h1 t1]; cbn [fst snd] in Hlen;
    pose proof (split_length h1) as Hlen1;
    destruct (nonempty t1) eqn:Ht1.
  - destruct (nonempty h1 && nonempty t1 && negb (exists_ fs h1)); [|reflexivity].
    apply nonempty_length in Ht1. lia.
  - destruct (split h1) as [head tail]. cbn [fst snd] in Hlen1.
    destruct (nonempty head) eqn:Hh; [|reflexivity]. apply nonempty_length in Hh. lia.
  - destruct (nonempty h1 && nonempty t1 && negb (exists_ fs h1)); [|reflexivity].
    apply nonempty_length in Ht1.
    destruct fuel' as [|fuel']; [lia|]. rewrite (IH fuel' h1 fs) by lia. reflexivity.
  - destruct (split h1) as [head tail]. cbn [fst snd] in Hlen1.
    destruct (nonempty head && nonempty tail && negb (exists_ fs head)) eqn:Hcond;
      [|reflexivity].
    apply andb_true_iff in Hcond as [Hcond _]. apply andb_true_iff in Hcond as [_ Ht].
    apply nonempty_length in Ht.
    destruct fuel' as [|fuel']; [lia|]. rewrite (IH fuel' head fs) by lia. reflexivity.
Qed.

(** * The executable instance satisfies the laws *)

Module ReferenceLaws.
Import Reference.

Lemma cost_list (l : list doc) : cost (DList l) = S (cost_elements l).
Proof. reflexivity. Qed.

Lemma cost_dict (items : list (string * doc)) : cost (DDict items) = S (cost_members items).
Proof. reflexivity. Qed.

Lemma doc_ind' (P : doc -> Prop) :
  (forall s, P (DStr s)) ->
  (forall l, Forall P l -> P (DList l)) ->
  (forall items, Forall (fun kv => P (snd kv)) items -> P (DDict items)) ->
  forall d, P d.
Proof.
  intros Hs Hl Hd. fix IH 1. intros [s|l|items].
  - apply Hs.
  - apply Hl. induction l as [|d l IHl]; constructor; [apply IH | exact IHl].
  - apply Hd. induction items as [|kv items IHi]; constructor; [apply IH | exact IHi].
Qed.

Lemma parse_chars_escape (s rest : string) :
  parse_chars (escape s +:+ String dquote rest) = Some (s, rest).
Proof.
  induction s as [|a s IH].
  - cbn. reflexivity.
  - cbn [escape].
    destruct (bool_decide (a = dquote)) eqn:Hq; cbn [orb].
    + rewrite !append_cons. cbn [parse_chars]. rewrite IH. reflexivity.
    + destruct (bool_decide (a = backslash)) eqn:Hb.
      * rewrite !append_cons. cbn [parse_chars]. rewrite IH. reflexivity.
      * rewrite append_cons. cbn [parse_chars]. rewrite Hq, Hb, IH. reflexivity.
Qed.

Lemma parse_value_space (fuel : nat) (s : string) :
  parse_value fuel (String " " s) = parse_value fuel s.
Proof. destruct fuel; reflexivity. Qed.

Lemma parse_elements_space (fuel : nat) (s : string) :
  parse_elements fuel (String " " s) = parse_elements fuel s.
Proof. destruct fuel; [reflexivity|]. cbn [parse_elements]. rewrite parse_value_space. reflexivity. Qed.

Lemma parse_members_space (fuel : nat) (s : string) :
  parse_members fuel (String " " s) = parse_members fuel s.
Proof. destruct fuel; reflexivity. Qed.

Lemma dumps_head (d : doc) : exists c s, dumps d = String c s /\ opens c.
Proof.
  destruct d as [s|l|items].
  - exists dquote. eexists. split; [reflexivity | left; reflexivity].
  - exists "["%char. eexists. split; [reflexivity | right; left; reflexivity].
  - exists "{"%char. eexists. split; [reflexivity | right; right; reflexivity].
Qed.

Lemma join_head (c : ascii) (s : string) (texts : list string) (rest : string) :
  exists s', join ", " (String c s :: texts) +:+ rest = String c s'.
Proof. destruct texts; eexists; reflexivity. Qed.

Lemma join_app (text : string) (texts : list string) (rest : string) :
  texts <> [] ->
  join ", " (text :: texts) +:+ rest
  = text +:+ String "," (String " " (join ", " texts +:+ rest)).
Proof.
  destruct texts as [|t texts]; [contradiction|]. intros _.
  change (join ", " (text :: t :: texts)) with (text +:+ ", " +:+ join ", " (t :: texts)).
  rewrite !append_assoc. reflexivity.
Qed.

Lemma quote_app (s rest : string) :
  quote s +:+ rest = String dquote (escape s +:+ String dquote rest).
Proof. unfold quote. rewrite append_cons, append_assoc. reflexivity. Qed.

Section parse.
Variable P : doc -> Prop.
Hypothesis P_def : forall d, P d <->
  forall fuel rest, cost d <= fuel -> parse_value fuel (dumps d +:+ rest) = Some (d, rest).

Lemma parse_elements_dumps (l : list doc) :
  Forall P l -> l <> [] ->
  forall fuel rest,
    cost_elements l <= fuel ->
    parse_elements fuel (join ", " (map dumps l) +:+ String "]" rest) = Some (l, rest).
Proof.
  induction 1 as [|d l Hd _ IH]; [contradiction|]. intros _ fuel rest Hfuel.
  destruct fuel as [|fuel]; [cbn in Hfuel; lia|]. cbn [cost_elements] in Hfuel.
  cbn [parse_elements map]. destruct l as [|d' l].
  - cbn [map join]. rewrite (proj1 (P_def d) Hd) by lia. reflexivity.
  - rewrite join_app by discriminate.
    rewrite (proj1 (P_def d) Hd) by lia. cbn [mbind option_bind fst snd skip_spaces].
    change (is_space ","%char) with false.
    cbn iota. change (bool_decide ("," = ",")%char) with true. cbn iota.
    rewrite parse_elements_space, IH by (try discriminate; lia). reflexivity.
Qed.

Lemma parse_members_dumps (items : list (string * doc)) :
  Forall (fun kv => P (snd kv)) items -> items <> [] ->
  forall fuel rest,
    cost_members items <= fuel ->
    parse_members fuel
      (join ", " (map (fun kv => quote (fst kv) +:+ ": " +:+ dumps (snd kv)) items)
       +:+ String "}" rest)
    = Some (items, rest).
Proof.
  induction 1 as [|[k v] items Hv _ IH]; [contradiction|]. intros _ fuel rest Hfuel.
  destruct fuel as [|fuel]; [cbn in Hfuel; lia|]. cbn [cost_members snd] in Hfuel.
  cbn [map fst snd]. cbn [snd] in Hv.
  assert (Hmember : forall more,
             parse_members (S fuel) ((quote k +:+ ": " +:+ dumps v) +:+ more)
             = v' ← parse_value fuel (dumps v +:+ more);
               match skip_spaces (snd v') with
               | String a s' =>
                   if bool_decide (a = ","%char) then
                     p ← parse_members fuel s'; Some ((k, fst v') :: fst p, snd p)
                   else if bool_decide (a = "}"%char) then Some ([(k, fst v')], s')
                   else None
               | EmptyString => None
               end).
  { intros more. rewrite !append_assoc, quote_app. cbn [parse_members skip_spaces].
    change (is_space dquote) with false. cbn iota.
    change (bool_decide (dquote = dquote)) with true. cbn iota.
    rewrite parse_chars_escape. cbn [mbind option_bind fst snd].
    change (": " +:+ dumps v +:+ more) with (String ":" (String " " (dumps v +:+ more))).
    cbn [skip_spaces]. change (is_space ":"%char) with false. cbn iota.
    change (bool_decide (":" = ":")%char) with true. cbn iota.
    rewrite parse_value_space. reflexivity. }
  destruct items as [|kv' items].
  - cbn [map join]. rewrite Hmember, (proj1 (P_def v) Hv) by lia. reflexivity.
  - rewrite join_app by discriminate. rewrite Hmember.
    rewrite (proj1 (P_def v) Hv) by lia. cbn [mbind option_bind fst snd skip_spaces].
    change (is_space ","%char) with false. cbn iota.
    change (bool_decide ("," = ",")%char) with true. cbn iota.
    rewrite parse_members_space, IH by (try discriminate; lia). reflexivity.
Qed.
End parse.

Lemma skip_spaces_opens (c : ascii) (s : string) :
  opens c -> skip_spaces (String c s) = String c s.
Proof. intros [->|[->| ->]]; reflexivity. Qed.

Lemma parse_value_dumps (d : doc) :
  forall fuel rest, cost d <= fuel -> parse_value fuel (dumps d +:+ rest) = Some (d, rest).
Proof.
  induction d as [s|l IH|items IH] using doc_ind'; intros fuel rest Hfuel;
    (destruct fuel as [|fuel]; [cbn in Hfuel; lia|]).
  - cbn [dumps]. rewrite quote_app. cbn [parse_value skip_spaces].
    change (is_space dquote) with false. cbn iota.
    change (bool_decide (dquote = dquote)) with true. cbn iota.
    rewrite parse_chars_escape. reflexivity.
  - rewrite cost_list in Hfuel.
    assert (Hall : Forall (fun d => forall fuel rest, cost d <= fuel ->
                     parse_value fuel (dumps d +:+ rest) = Some (d, rest)) l) by exact IH.
    change (dumps (DList l) +:+ rest)
      with (("[" +:+ join ", " (map dumps l) +:+ "]") +:+ rest).
    rewrite !append_assoc.
    change ("[" +:+ join ", " (map dumps l) +:+ "]" +:+ rest)
      with (String "[" (join ", " (map dumps l) +:+ String "]" rest)).
    cbn [parse_value skip_spaces]. change (is_space "["%char) with false. cbn iota.
    change (bool_decide ("[" = dquote)%char) with false. cbn iota.
    change (bool_decide ("[" = "[")%char) with true. cbn iota.
    destruct l as [|d l]; [reflexivity|].
    pose proof (parse_elements_dumps _ (fun d => conj (fun H => H) (fun H => H))
                  (d :: l) Hall ltac:(discriminate) fuel rest ltac:(lia)) as Hparse.
    destruct (dumps_head d) as (c & s0 & Hc & Hopens).
    cbn [map] in *. rewrite Hc in *.
    destruct (join_head c s0 (map dumps l) (String "]" rest)) as [s' Hs'].
    rewrite Hs' in *. rewrite (skip_spaces_opens c s' Hopens).
    assert (Hclose : bool_decide (c = "]"%char) = false)
      by (destruct Hopens as [->|[->| ->]]; reflexivity).
    rewrite Hclose, Hparse. reflexivity.
  - rewrite cost_dict in Hfuel.
    change (dumps (DDict items) +:+ rest)
      with (("{" +:+ join ", " (map (fun kv => quote (fst kv) +:+ ": " +:+ dumps (snd kv)) items)
             +:+ "}") +:+ rest).
    rewrite !append_assoc.
    match goal with
    | |- context [join ", " ?texts] =>
        change ("{" +:+ join ", " texts +:+ "}" +:+ rest)
          with (String "{" (join ", " texts +:+ String "}" rest))
    end.
    cbn [parse_value skip_spaces]. change (is_space "{"%char) with false. cbn iota.
    change (bool_decide ("{" = dquote)%char) with false. cbn iota.
    change (bool_decide ("{" = "[")%char) with false. cbn iota.
    change (bool_decide ("{" = "{")%char) with true. cbn iota.
    destruct items as [|[k v] items]; [reflexivity|].
    pose proof (parse_members_dumps _ (fun d => conj (fun H => H) (fun H => H))
                  ((k, v) :: items) IH ltac:(discriminate) fuel rest ltac:(lia)) as Hparse.
    cbn [map fst snd] in *.
    destruct (join_head dquote (escape k +:+ String dquote (": " +:+ dumps v))
                (map (fun kv => quote (fst kv) +:+ ": " +:+ dumps (snd kv)) items)
                (String "}" rest)) as [s' Hs'].
    assert (Hq : quote k +:+ ": " +:+ dumps v
                 = String dquote (escape k +:+ String dquote (": " +:+ dumps v)))
      by apply quote_app.
    rewrite Hq in *. rewrite Hs' in *.
    cbn [skip_spaces]. change (is_space dquote) with false. cbn iota.
    change (bool_decide (dquote = "}"%char)) with false. cbn iota.
    rewrite Hparse. reflexivity.
Qed.

Lemma quote_length (s : string) : 2 <= String.length (quote s).
Proof. unfold quote. cbn. rewrite append_length. cbn. lia. Qed.

Lemma join_length_elements (l : list doc) :
  Forall (fun d => cost d < String.length (dumps d)) l ->
  cost_elements l <= String.length (join ", " (map dumps l)).
Proof.
  induction 1 as [|d l Hd _ IH]; [reflexivity|]. cbn [cost_elements map].
  destruct l as [|d' l]; [cbn in *; lia|].
  change (join ", " (dumps d :: map dumps (d' :: l)))
    with (dumps d +:+ ", " +:+ join ", " (map dumps (d' :: l))).
  rewrite !append_length. cbn [String.length]. lia.
Qed.

Lemma join_length_members (items : list (string * doc)) :
  Forall (fun kv => cost (snd kv) < String.length (dumps (snd kv))) items ->
  cost_members items
  <= String.length
       (join ", " (map (fun kv => quote (fst kv) +:+ ": " +:+ dumps (snd kv)) items)).
Proof.
  induction 1 as [|kv items Hd _ IH]; [reflexivity|]. cbn [cost_members map].
  pose proof (quote_length (fst kv)) as Hq.
  destruct items as [|kv' items].
  - cbn [map join]. rewrite !append_length. cbn in *. lia.
  - cbn [map]. match goal with
    | |- context [join ", " (?text :: ?texts)] =>
        change (join ", " (text :: texts)) with (text +:+ ", " +:+ join ", " texts)
    end.
    rewrite !append_length. cbn [String.length]. cbn [map] in IH. lia.
Qed.

Lemma cost_length (d : doc) : cost d < String.length (dumps d).
Proof.
  induction d as [s|l IH|items IH] using doc_ind'.
  - pose proof (quote_length s). cbn [cost dumps]. lia.
  - rewrite cost_list. cbn [dumps]. rewrite !append_length.
    pose proof (join_length_elements l IH). cbn [String.length]. lia.
  - rewrite cost_dict. cbn [dumps]. rewrite !append_length.
    pose proof (join_length_members items IH). cbn [String.length]. lia.
Qed.

(** The parser reads back what the printer wrote. *)
Lemma loads_dumps (d : doc) : loads (dumps d) = Ok d.
Proof.
  unfold loads. pose proof (cost_length d) as Hcost.
  rewrite <- (append_empty_r (dumps d)) at 2.
  rewrite parse_value_dumps by lia. reflexivity.
Qed.

(** ** Interpolation *)

Lemma until_close_spec (body address rest : string) :
  until_close body = Some (address, rest) -> body = address +:+ "}}" +:+ rest.
Proof.
  revert address rest. induction body as [|a body IH]; intros address rest; [discriminate|].
  cbn [until_close].
  assert (Hstep : (p ← until_close body; Some (String a (fst p), snd p)) = Some (address, rest) ->
                  String a body = address +:+ "}}" +:+ rest).
  { destruct (until_close body) as [[address' rest']|]; [|discriminate]. cbn.
    intros [= <- <-]. rewrite append_cons. f_equal. apply IH. reflexivity. }
  destruct a as [[] [] [] [] [] [] [] []]; try exact Hstep.
  destruct body as [|b body]; [exact Hstep|].
  destruct b as [[] [] [] [] [] [] [] []]; try exact Hstep.
  intros [= <- <-]. reflexivity.
Qed.

(** Without scopes, interpolation leaves a string as it is. *)
Lemma interpolate_string_nil (fuel : nat) (s : string) :
  fst (interpolate_string fuel [] s) = s.
Proof.
  revert s. induction fuel as [|fuel IH]; intros s; [reflexivity|].
  cbn [interpolate_string]. destruct s as [|a s]; [reflexivity|].
  assert (Hliteral : fst (let '(out, refs) := interpolate_string fuel [] s in
                          (String a out, refs)) = String a s).
  { specialize (IH s). destruct (interpolate_string fuel [] s). cbn in *. congruence. }
  destruct a as [[] [] [] [] [] [] [] []]; try exact Hliteral.
  destruct s as [|b body]; [exact Hliteral|].
  destruct b as [[] [] [] [] [] [] [] []]; try exact Hliteral.
  destruct (until_close body) as [[address rest]|] eqn:Hclose; [|exact Hliteral].
  destruct (from_address address); [|exact Hliteral].
  specialize (IH rest). destruct (interpolate_string fuel [] rest) as [out refs].
  cbn [resolve fst] in *. subst out.
  rewrite (until_close_spec _ _ _ Hclose). reflexivity.
Qed.

Lemma interpolate_doc_nil (d : doc) : fst (interpolate_doc [] d) = d.
Proof.
  induction d as [s|l IH|items IH] using doc_ind'; cbn [interpolate_doc].
  - pose proof (interpolate_string_nil (String.length s) s) as Hs.
    destruct (interpolate_string (String.length s) [] s). cbn in *. congruence.
  - cbn [fst]. f_equal. induction IH as [|d l Hd _ IHl]; [reflexivity|].
    cbn [map]. rewrite Hd, IHl. reflexivity.
  - cbn [fst]. f_equal. induction IH as [|[k v] items Hv _ IHi]; [reflexivity|].
    cbn [map fst snd] in *. rewrite Hv, IHi. reflexivity.
Qed.

(** Data that type-checks is data a task can be built from. *)
Lemma check_task_data (d : doc) : ok (check_task d) = true -> make_task d = Ok (mkObject d []).
Proof.
  unfold check_task, make_task. destruct (task_data d) eqn:Hdata; [|discriminate].
  intros _. destruct d as [s|l|items]; try discriminate. reflexivity.
Qed.

Lemma make_task_inv (js : doc) (task : object) :
  make_task js = Ok task -> task = mkObject js [].
Proof.
  unfold make_task. destruct js as [s|l|items]; try discriminate.
  destruct (task_data (DDict items)); [|discriminate]. intros [= <-]. reflexivity.
Qed.

Lemma reference_laws : @LibraryLaws library.
Proof.
  split.
  - intros t. apply loads_dumps.
  - intros t ti Hcheck Hti.
    change (ok (check_task (raw (fst (obj_interpolate t)))) = true) in Hcheck.
    change (obj_interpolate t = (ti, [])) in Hti. rewrite Hti in Hcheck.
    exists (mkObject (raw ti) []). exact (check_task_data _ Hcheck).
  - intros t ti t' _ Htask. apply make_task_inv in Htask. subst t'.
    change (raw (fst (obj_interpolate (mkObject (raw ti) []))) = raw ti).
    unfold obj_interpolate. cbn [raw scopes].
    pose proof (interpolate_doc_nil (raw ti)) as Hnil.
    destruct (interpolate_doc [] (raw ti)). cbn in *. exact Hnil.
  - intros t t' Hsame.
    change (ok (check_task (raw (fst (obj_interpolate t))))
            = ok (check_task (raw (fst (obj_interpolate t'))))).
    change (raw (fst (obj_interpolate t)) = raw (fst (obj_interpolate t'))) in Hsame.
    rewrite Hsame. reflexivity.
Qed.
End ReferenceLaws.

(** * Properties of the loader that involve files *)

(** ** The task wrapper: files *)

Lemma from_file_returns {L : Library} (filename : string) (kw : kwargs) (fs : filesystem) :
  returns (fst (ThermosTaskWrapper.from_file filename kw fs)).
Proof.
  unfold ThermosTaskWrapper.from_file.
  destruct (safe_open_read filename fs) as [opened fs1]. cbn [fst].
  match goal with |- returns (try_except ?body _) => destruct body end;
    eexists; reflexivity.
Qed.

Lemma from_file_unopened {L : Library} (filename : string) (kw : kwargs)
    (fs : filesystem) :
  raises (fst (safe_open_read filename fs)) ->
  fst (ThermosTaskWrapper.from_file filename kw fs) = Ok None.
Proof.
  unfold ThermosTaskWrapper.from_file.
  destruct (safe_open_read filename fs) as [opened fs1]. cbn [fst].
  intros [e ->]. reflexivity.
Qed.

Lemma from_file_parsed {L : Library} (filename : string) (kw : kwargs)
    (fs : filesystem) (contents : string) (js : Document) (task : Task) :
  fst (safe_open_read filename fs) = Ok contents ->
  json_loads contents = Ok js ->
  Task_ js = Ok task ->
  fst (ThermosTaskWrapper.from_file filename kw fs)
  = match ThermosTaskWrapper.new task kw with
    | Ok wrapper => Ok (Some wrapper)
    | Raise _ => Ok None
    end.
Proof.
  unfold ThermosTaskWrapper.from_file.
  destruct (safe_open_read filename fs) as [opened fs1]. cbn [fst].
  intros -> Hjs Htask. cbn [mbind result_bind]. rewrite Hjs. cbn [mbind result_bind].
  rewrite Htask. cbn [mbind result_bind].
  destruct (ThermosTaskWrapper.new task kw); reflexivity.
Qed.

Lemma new_eq {L : Library} (task : Task) (kw : kwargs) :
  kw_other kw = [] ->
  ThermosTaskWrapper.new task kw
  = ThermosTaskWrapper.__init__ task (kw_bindings kw) (default true (kw_strict kw)).
Proof. intros Hother. unfold ThermosTaskWrapper.new. rewrite Hother. reflexivity. Qed.

(** [safe_open] makes the directories, then opens the file. *)
Lemma safe_open_read_eq (filename : string) (fs : filesystem) :
  safe_open_read filename fs
  = (match fst (safe_mkdir (dirname filename) fs) with
     | Ok _ => read_file (opened_in filename fs) filename
     | Raise e => Raise e
     end,
     opened_in filename fs).
Proof.
  unfold safe_open_read, opened_in.
  destruct (safe_mkdir (dirname filename) fs) as [[[]|e] fs1]; reflexivity.
Qed.

Lemma safe_open_read_unread (filename : string) (fs : filesystem) :
  raises (read_file (opened_in filename fs) filename) ->
  raises (fst (safe_open_read filename fs)).
Proof.
  rewrite safe_open_read_eq. cbn [fst].
  destruct (fst (safe_mkdir (dirname filename) fs)) as [[]|e]; [auto|].
  intros _. eexists. reflexivity.
Qed.

(** When the directory of [filename] is there, [safe_open] makes none. *)
Lemma opened_in_exists (filename : string) (fs : filesystem) :
  exists_ fs (dirname filename) = true -> opened_in filename fs = fs.
Proof. intros Hthere. unfold opened_in. rewrite (safe_mkdir_exists _ _ Hthere). reflexivity. Qed.

(** C4, as the code has it.  [from_file] never raises.  It returns [None]
    whenever [safe_open] raises: for every file name without a directory
    part, for a path at which there is nothing once the directories of the
    path are made (as when there is nothing at the path and its directory
    is there), for a file that cannot be opened.  It returns [None] for
    contents [json] rejects, for a document the [Task] constructor rejects,
    for keywords the wrapper does not take, and, unless [strict=False] was
    passed, for a document that fails validation.  Otherwise it returns a
    new wrapper of the parsed document with the bindings of [kw] bound;
    with [strict=False] that includes a document that fails validation. *)
Theorem from_file_spec {L : Library} (filename : string) (kw : kwargs) (fs : filesystem) :
  returns (fst (ThermosTaskWrapper.from_file filename kw fs))
  /\ (raises (fst (safe_open_read filename fs)) ->
      fst (ThermosTaskWrapper.from_file filename kw fs) = Ok None)
  /\ (occurs "/" filename = false ->
      fst (ThermosTaskWrapper.from_file filename kw fs) = Ok None)
  /\ (exists_ (opened_in filename fs) filename = false ->
      fst (ThermosTaskWrapper.from_file filename kw fs) = Ok None)
  /\ (exists_ fs (dirname filename) = true -> exists_ fs filename = false ->
      fst (ThermosTaskWrapper.from_file filename kw fs) = Ok None)
  /\ (forall target,
        lookup_path (opened_in filename fs) filename true = inr target ->
        node_at (opened_in filename fs) target = Some NoAccess ->
        fst (ThermosTaskWrapper.from_file filename kw fs) = Ok None)
  /\ (forall contents, fst (safe_open_read filename fs) = Ok contents ->
      (raises (json_loads contents) ->
       fst (ThermosTaskWrapper.from_file filename kw fs) = Ok None)
      /\ (forall js, json_loads contents = Ok js ->
          (raises (Task_ js) ->
           fst (ThermosTaskWrapper.from_file filename kw fs) = Ok None)
          /\ (forall task, Task_ js = Ok task ->
              let bound := bound_template task (kw_bindings kw) in
              (kw_other kw <> [] ->
               fst (ThermosTaskWrapper.from_file filename kw fs) = Ok None)
              /\ (kw_other kw = [] -> ok (check bound) = false ->
                  kw_strict kw <> Some false ->
                  fst (ThermosTaskWrapper.from_file filename kw fs) = Ok None)
              /\ (kw_other kw = [] ->
                  ok (check bound) = true \/ kw_strict kw = Some false ->
                  fst (ThermosTaskWrapper.from_file filename kw fs)
                  = Ok (Some (mkTaskWrapper _ bound)))))).
Proof.
  split; [apply from_file_returns|].
  split; [apply from_file_unopened|].
  assert (Habsent : exists_ (opened_in filename fs) filename = false ->
                    fst (ThermosTaskWrapper.from_file filename kw fs) = Ok None).
  { intros Habsent. apply from_file_unopened, safe_open_read_unread.
    destruct (read_file (opened_in filename fs) filename) as [contents|e] eqn:Hread;
      [|eexists; reflexivity].
    rewrite (exists_of_read _ _ _ Hread) in Habsent. discriminate. }
  split; [|split; [exact Habsent|split; [|split]]].
  - intros Hbare. apply from_file_unopened.
    rewrite (safe_open_read_bare filename fs Hbare). eexists. reflexivity.
  - intros Hdir Hnone. apply Habsent. rewrite (opened_in_exists _ _ Hdir). exact Hnone.
  - intros target Hlookup Hnode. apply from_file_unopened, safe_open_read_unread.
    unfold read_file. rewrite Hlookup, Hnode. eexists. reflexivity.
  - intros contents Hfile. split.
    + unfold ThermosTaskWrapper.from_file.
      destruct (safe_open_read filename fs) as [opened fs1]. cbn [fst] in *. subst opened.
      cbn [mbind result_bind]. intros [e ->]. reflexivity.
    + intros js Hjs. split.
      * unfold ThermosTaskWrapper.from_file.
        destruct (safe_open_read filename fs) as [opened fs1]. cbn [fst] in *. subst opened.
        cbn [mbind result_bind]. rewrite Hjs. cbn [mbind result_bind].
        intros [e ->]. reflexivity.
      * intros task Htask. set (bound := bound_template task (kw_bindings kw)).
        rewrite (from_file_parsed _ _ _ _ _ _ Hfile Hjs Htask).
        split; [|split].
        -- intros Hother. unfold ThermosTaskWrapper.new.
           destruct (kw_other kw); [contradiction | reflexivity].
        -- intros Hother Hok Hstrict. rewrite (new_eq _ _ Hother), init_eq.
           fold bound. rewrite Hok.
           destruct (kw_strict kw) as [[]|]; [reflexivity | contradiction | reflexivity].
        -- intros Hother Hcase. rewrite (new_eq _ _ Hother), init_eq. fold bound.
           destruct Hcase as [-> | ->]; [reflexivity|].
           cbn. rewrite andb_false_r. reflexivity.
Qed.

(** In the working directory [/tmp]: nothing is at [/tmp/missing.json];
    [greeter.json] is there, and is not opened under that name, which has no
    directory part; [secret.json] cannot be opened; the document of
    [broken.json] fails validation; that of [greeter.json] passes it. *)
Lemma from_file_witness :
  fst (ThermosTaskWrapper.from_file "/tmp/missing.json" Samples.no_kw Samples.disk) = Ok None
  /\ fst (ThermosTaskWrapper.from_file "greeter.json" Samples.no_kw Samples.disk) = Ok None
  /\ fst (ThermosTaskWrapper.from_file "./secret.json" Samples.no_kw Samples.disk) = Ok None
  /\ fst (ThermosTaskWrapper.from_file "/tmp/broken.json" Samples.no_kw Samples.disk) = Ok None
  /\ fst (ThermosTaskWrapper.from_file "./greeter.json" Samples.no_kw Samples.disk)
     = Ok (Some (mkTaskWrapper _ Samples.greeter))
  /\ fst (ThermosTaskWrapper.from_file "/tmp/broken.json" Samples.lenient Samples.disk)
     = Ok (Some (mkTaskWrapper _ Samples.broken)).
Proof.
  assert (Hgreeter : fst (safe_open_read "./greeter.json" Samples.disk)
                     = Ok (Reference.dumps (Reference.raw Samples.greeter)))
    by (vm_compute; reflexivity).
  assert (Hbroken : fst (safe_open_read "/tmp/broken.json" Samples.disk)
                    = Ok (Reference.dumps (Reference.raw Samples.broken)))
    by (vm_compute; reflexivity).
  assert (Hjs : @json_loads Reference.library
                  (Reference.dumps (Reference.raw Samples.greeter))
                = Ok (Reference.raw Samples.greeter))
    by (vm_compute; reflexivity).
  assert (Hjs' : @json_loads Reference.library
                   (Reference.dumps (Reference.raw Samples.broken))
                 = Ok (Reference.raw Samples.broken))
    by (vm_compute; reflexivity).
  assert (Htask : @Task_ Reference.library (Reference.raw Samples.greeter)
                  = Ok Samples.greeter)
    by (vm_compute; reflexivity).
  assert (Htask' : @Task_ Reference.library (Reference.raw Samples.broken)
                   = Ok Samples.broken)
    by (vm_compute; reflexivity).
  destruct (from_file_spec "/tmp/missing.json" Samples.no_kw Samples.disk)
    as (_ & _ & _ & _ & Hmissing & _).
  destruct (from_file_spec "greeter.json" Samples.no_kw Samples.disk)
    as (_ & _ & Hbare & _).
  destruct (from_file_spec "./secret.json" Samples.no_kw Samples.disk)
    as (_ & _ & _ & _ & _ & Hsecret & _).
  destruct (from_file_spec "/tmp/broken.json" Samples.no_kw Samples.disk)
    as (_ & _ & _ & _ & _ & _ & Hstrict).
  destruct (Hstrict _ Hbroken) as (_ & Hstrict1).
  destruct (Hstrict1 _ Hjs') as (_ & Hstrict2).
  destruct (Hstrict2 _ Htask') as (_ & Hinvalid & _).
  destruct (from_file_spec "./greeter.json" Samples.no_kw Samples.disk)
    as (_ & _ & _ & _ & _ & _ & Hvalid).
  destruct (Hvalid _ Hgreeter) as (_ & Hvalid1).
  destruct (Hvalid1 _ Hjs) as (_ & Hvalid2).
  destruct (Hvalid2 _ Htask) as (_ & _ & Hwrapped).
  destruct (from_file_spec "/tmp/broken.json" Samples.lenient Samples.disk)
    as (_ & _ & _ & _ & _ & _ & Hlenient).
  destruct (Hlenient _ Hbroken) as (_ & Hlenient1).
  destruct (Hlenient1 _ Hjs') as (_ & Hlenient2).
  destruct (Hlenient2 _ Htask') as (_ & _ & Hkept).
  split; [|split; [|split; [|split; [|split]]]].
  - apply Hmissing; vm_compute; reflexivity.
  - apply Hbare. vm_compute. reflexivity.
  - apply (Hsecret ["tmp"; "secret.json"]); vm_compute; reflexivity.
  - apply Hinvalid; [reflexivity | vm_compute; reflexivity | discriminate].
  - apply Hwrapped; [reflexivity | left; vm_compute; reflexivity].
  - apply Hkept; [reflexivity | right; reflexivity].
Defined.

(** Why the statement speaks of the path once its directories are made:
    in the working directory [/tmp], nothing is at [new/../greeter.json],
    since [new] is not there; [safe_open] makes [new], and the path then
    leads to [/tmp/greeter.json]. *)
Example from_file_makes_way :
  exists_ Samples.disk "new/../greeter.json" = false
  /\ fst (ThermosTaskWrapper.from_file "new/../greeter.json" Samples.no_kw Samples.disk)
     = Ok (Some (mkTaskWrapper _ Samples.greeter)).
Proof. split; reflexivity. Qed.

(** C4 as stated does not hold: with [strict=False], a document that fails
    validation comes back wrapped, not as [None].  The document has a
    process without the required [cmdline]. *)
Lemma from_file_lenient_counterexample :
  ~ (forall (L : Library) (filename : string) (kw : kwargs) (fs : filesystem)
       (contents : string) (js : Document) (task : Task),
       fst (safe_open_read filename fs) = Ok contents ->
       json_loads contents = Ok js ->
       Task_ js = Ok task ->
       ok (check (bound_template task (kw_bindings kw))) = false ->
       fst (ThermosTaskWrapper.from_file filename kw fs) = Ok None).
Proof.
  intros Hclaim.
  assert (Hnone : fst (ThermosTaskWrapper.from_file "/tmp/broken.json" Samples.lenient
                         Samples.disk) = Ok None).
  { apply (Hclaim Reference.library "/tmp/broken.json" Samples.lenient Samples.disk
             (Reference.dumps (Reference.raw Samples.broken))
             (Reference.raw Samples.broken) Samples.broken);
      vm_compute; reflexivity. }
  assert (Hsome : match fst (ThermosTaskWrapper.from_file "/tmp/broken.json"
                               Samples.lenient Samples.disk) with
                  | Ok (Some self) => Some (_task self)
                  | _ => None
                  end = Some Samples.broken)
    by (vm_compute; reflexivity).
  rewrite Hnone in Hsome. discriminate.
Qed.

(** C5.  A task wrapper that type-checks and is fully bound (interpolation
    leaves no reference unbound) is written with [to_file]; when [to_file]
    returns, [from_file] on the same path returns a wrapper whose
    interpolated JSON representation is that of the original, and leaves
    the file system as it is.  What [safe_open] wrote it reads back; what
    [json] and pystachio do with the document is in [LibraryLaws]. *)
Theorem to_file_from_file_roundtrip {L : Library} {Laws : LibraryLaws}
    (self : ThermosTaskWrapper) (filename : string) (fs fs' : filesystem) :
  ok (check (_task self)) = true ->
  snd (interpolate (_task self)) = [] ->
  ThermosTaskWrapper.to_file self filename fs = (Ok tt, fs') ->
  exists self',
    ThermosTaskWrapper.from_file filename no_kwargs fs' = (Ok (Some self'), fs')
    /\ interpolated_json self' = interpolated_json self.
Proof.
  intros Hvalid Hbound Hwrite. unfold ThermosTaskWrapper.to_file in Hwrite.
  unfold interpolated_json.
  destruct (interpolate (_task self)) as [ti refs] eqn:Hti. cbn [fst snd] in *. subst refs.
  destruct (Task_interpolated _ _ Hvalid Hti) as [task' Htask].
  pose proof (interpolate_interpolated _ _ _ Hti Htask) as Hget.
  assert (Hcheck : ok (check task') = true).
  { rewrite <- Hvalid. symmetry. apply check_interpolated. rewrite Hti, Hget. reflexivity. }
  exists (mkTaskWrapper _ task'). split.
  - unfold ThermosTaskWrapper.from_file.
    rewrite (safe_open_write_read _ _ _ _ Hwrite). cbn [mbind result_bind].
    rewrite json_loads_dumps. cbn [mbind result_bind]. rewrite Htask.
    cbn [mbind result_bind]. rewrite new_eq by reflexivity. rewrite init_eq.
    cbn [no_kwargs kw_bindings kw_strict bound_template]. rewrite Hcheck. reflexivity.
  - cbn [_task]. rewrite Hget. reflexivity.
Qed.

(** [greeter] with its role bound is written to [/tmp/out/greeter.json],
    where [/tmp/out] is yet to be made, and read back. *)
Lemma to_file_from_file_roundtrip_witness :
  exists (fs' : filesystem) (self' : @ThermosTaskWrapper Reference.library),
    ThermosTaskWrapper.to_file (mkTaskWrapper _ Samples.greeter_www)
      "/tmp/out/greeter.json" Samples.disk = (Ok tt, fs')
    /\ ThermosTaskWrapper.from_file "/tmp/out/greeter.json" no_kwargs fs'
       = (Ok (Some self'), fs')
    /\ interpolated_json self' = interpolated_json (mkTaskWrapper _ Samples.greeter_www).
Proof.
  pose (written := ThermosTaskWrapper.to_file (mkTaskWrapper _ Samples.greeter_www)
                     "/tmp/out/greeter.json" Samples.disk).
  assert (Hok : fst written = Ok tt) by (vm_compute; reflexivity).
  assert (Hwrite : written = (Ok tt, snd written))
    by (rewrite <- Hok; destruct written; reflexivity).
  destruct (@to_file_from_file_roundtrip Reference.library ReferenceLaws.reference_laws
              (mkTaskWrapper _ Samples.greeter_www) "/tmp/out/greeter.json"
              Samples.disk (snd written))
    as (self' & Hread & Hjson);
    [vm_compute; reflexivity | vm_compute; reflexivity | exact Hwrite |].
  exists (snd written), self'. split; [exact Hwrite|]. split; assumption.
Defined.

(** ** The loader *)

(** C9.  [load_json] returns a loader whose task list has exactly one entry,
    the result of [from_file]: the wrapper, or [None] when [from_file]
    failed. *)
Theorem load_json_spec {L : Library} (filename : string) (kw : kwargs)
    (fs : filesystem) :
  exists (entry : option ThermosTaskWrapper) (tc : ThermosConfigLoader),
    fst (ThermosTaskWrapper.from_file filename kw fs) = Ok entry
    /\ fst (ThermosConfigLoader.load_json filename kw fs) = Ok tc
    /\ ThermosConfigLoader.tasks tc = [entry]
    /\ snd (ThermosConfigLoader.load_json filename kw fs)
       = snd (ThermosTaskWrapper.from_file filename kw fs).
Proof.
  destruct (from_file_returns filename kw fs) as [entry Hentry].
  exists entry, (ThermosConfigLoader.add_task ThermosConfigLoader.__init__ entry).
  unfold ThermosConfigLoader.load_json.
  destruct (ThermosTaskWrapper.from_file filename kw fs) as [r fs1]. cbn [fst snd] in *.
  subst r. repeat split.
Qed.

Example load_json_missing :
  ThermosConfigLoader.tasks
    <$> fst (ThermosConfigLoader.load_json "/tmp/missing.json" Samples.no_kw Samples.disk)
  = Ok [None].
Proof. reflexivity. Qed.

Example load_json_lenient :
  ThermosConfigLoader.tasks
    <$> fst (ThermosConfigLoader.load_json "/tmp/broken.json" Samples.lenient Samples.disk)
  = Ok [Some (mkTaskWrapper _ Samples.broken)].
Proof. reflexivity. Qed.

Lemma collected_cons {L : Library} (kw : kwargs) (arg : Task) (evs : list event) :
  collected kw (ExportCall arg :: evs)
  = match ThermosTaskWrapper.new arg kw with
    | Ok wrapper => Some wrapper :: collected kw evs
    | Raise _ => collected kw evs
    end.
Proof.
  unfold collected. cbn [omap list_omap event_arg].
  destruct (ThermosTaskWrapper.new arg kw); reflexivity.
Qed.

(** When every call returned, every task passed is collected. *)
Lemma collected_all {L : Library} (kw : kwargs) (log : list event) :
  Forall (fun ev => returns (ThermosTaskWrapper.new (event_arg ev) kw)) log ->
  exists wrappers,
    Forall2 (fun ev wrapper => ThermosTaskWrapper.new (event_arg ev) kw = Ok wrapper)
            log wrappers
    /\ collected kw log = Some <$> wrappers.
Proof.
  induction 1 as [|[arg] log [wrapper Hnew] _ (wrappers & Hall & Heq)].
  - exists []. split; [constructor | reflexivity].
  - exists (wrapper :: wrappers). cbn [event_arg] in Hnew. split.
    + constructor; [exact Hnew | exact Hall].
    + rewrite collected_cons, Hnew, Heq. reflexivity.
Qed.

Lemma run_tasks {L : Library} (code : script) (ns : dictref) (kw : kwargs) :
  forall (st : store) (tc : ThermosConfigLoader) (log : list event) r st' tc' log',
    ThermosConfigLoader.run code ns kw st tc log = (r, st', tc', log') ->
    exists evs,
      log' = log ++ evs
      /\ _exported_tasks tc' = _exported_tasks tc ++ collected kw evs.
Proof.
  induction code as [|e|name k IH|name v k IH|name k IH|f arg k IH];
    intros st tc log r st' tc' log' Hrun; cbn [ThermosConfigLoader.run] in Hrun.
  - injection Hrun as <- <- <- <-. exists []. rewrite !app_nil_r. split; reflexivity.
  - injection Hrun as <- <- <- <-. exists []. rewrite !app_nil_r. split; reflexivity.
  - eapply IH. eassumption.
  - eapply IH. eassumption.
  - destruct (ThermosConfigLoader.dict_read ns st !! name); eapply IH; eassumption.
  - destruct f; try (eapply IH; eassumption).
    unfold ThermosConfigLoader.export in Hrun.
    destruct (ThermosTaskWrapper.new arg kw) as [wrapper|e] eqn:Hnew;
      cbn [mbind result_bind] in Hrun;
      destruct (IH _ _ _ _ _ _ _ _ Hrun) as (evs & -> & Htasks);
      exists (ExportCall arg :: evs);
      (split; [rewrite <- app_assoc; reflexivity|]);
      rewrite Htasks, collected_cons, Hnew.
    + cbn [ThermosConfigLoader.add_task _exported_tasks].
      rewrite <- app_assoc. reflexivity.
    + reflexivity.
Qed.

(** C6, as the code has it.  When [load] returns a loader, its task list
    holds, in call order, the wrappers of the tasks the source passed to the
    injected [export] for which the construction of the wrapper, with the
    keywords of the [load] call, returned.  A task whose construction raised
    is not in the list; a source that catches the exception goes on.  When
    every construction returned, the list is, entry by entry, the wrappers
    of the tasks passed to [export]. *)
Theorem load_tasks_spec {L : Library} {P : Python} (filename : string) (kw : kwargs)
    (fs : filesystem) (st st' : store) (tc : ThermosConfigLoader)
    (log : list event) :
  ThermosConfigLoader.load filename kw fs st = (Ok tc, st', log) ->
  ThermosConfigLoader.tasks tc = collected kw log
  /\ (Forall (fun ev => returns (ThermosTaskWrapper.new (event_arg ev) kw)) log ->
      exists wrappers,
        Forall2 (fun ev wrapper => ThermosTaskWrapper.new (event_arg ev) kw = Ok wrapper)
                log wrappers
        /\ ThermosConfigLoader.tasks tc = Some <$> wrappers).
Proof.
  unfold ThermosConfigLoader.load, ThermosConfigLoader.exec_function.
  destruct (ThermosConfigLoader.copy SchemaRef st) as [schema_copy st1].
  destruct (read_file fs filename) as [source|e]; [|discriminate].
  destruct (compile source filename) as [code|e]; [|discriminate].
  match goal with
  | |- context [ThermosConfigLoader.run code ?ns ?kw ?s ?t ?l] =>
      destruct (ThermosConfigLoader.run code ns kw s t l) as [[[r st2] tc2] log2] eqn:Hrun
  end.
  intros Hload. destruct r as [[]|e]; [|discriminate].
  cbn [mbind result_bind] in Hload. injection Hload as <- <- <-.
  destruct (run_tasks _ _ _ _ _ _ _ _ _ _ Hrun) as (evs & -> & Htasks).
  assert (Heq : ThermosConfigLoader.tasks tc2 = collected kw evs) by exact Htasks.
  split; [exact Heq|]. intros Hall.
  destruct (collected_all kw evs Hall) as (wrappers & Hwrappers & Hcollected).
  exists wrappers. split; [exact Hwrappers | congruence].
Qed.

(** A source that exports [broken] under [try: ... except Exception: pass]
    and then [greeter], loaded with the default [strict]: [greeter] alone is
    in the list. *)
Lemma load_tasks_witness :
  ThermosConfigLoader.tasks (mkLoader _ [Some (mkTaskWrapper _ Samples.greeter)])
  = collected Samples.no_kw [ExportCall Samples.broken; ExportCall Samples.greeter].
Proof.
  pose (outcome := ThermosConfigLoader.load (P := Samples.python) "guarded.thermos"
                     Samples.no_kw Samples.config_disk Samples.vocabulary).
  assert (Hloader : fst (fst outcome)
                    = Ok (mkLoader _ [Some (mkTaskWrapper _ Samples.greeter)]))
    by reflexivity.
  assert (Hlog : snd outcome = [ExportCall Samples.broken; ExportCall Samples.greeter])
    by reflexivity.
  assert (Hload : outcome
                  = (Ok (mkLoader _ [Some (mkTaskWrapper _ Samples.greeter)]),
                     store_after_load outcome,
                     [ExportCall Samples.broken; ExportCall Samples.greeter])).
  { rewrite <- Hloader, <- Hlog. unfold store_after_load.
    destruct outcome as [[r st'] log]. reflexivity. }
  exact (proj1 (load_tasks_spec (P := Samples.python) "guarded.thermos" Samples.no_kw
                  Samples.config_disk Samples.vocabulary _ _ _ Hload)).
Defined.

(** A source that exports [bare] and [greeter], with [role] bound by the
    caller: both are in the list, bound. *)
Example load_two_exports :
  fst (fst (ThermosConfigLoader.load (P := Samples.python) "web.thermos"
              Samples.with_role Samples.config_disk Samples.vocabulary))
  = Ok (mkLoader _ [Some (mkTaskWrapper _ (bind Samples.bare [Samples.role_www]));
                    Some (mkTaskWrapper _ Samples.greeter_www)]).
Proof. reflexivity. Qed.

(** Under the default [strict], an invalid export that the source does not
    catch ends the evaluation: [load] raises and returns no loader. *)
Example load_strict_invalid :
  fst (fst (ThermosConfigLoader.load (P := Samples.python) "strict.thermos"
              Samples.no_kw Samples.config_disk Samples.vocabulary))
  = Raise (InvalidTask "Element in ProcessList failed check: Process[cmdline] is required.").
Proof. reflexivity. Qed.

(** A source that catches it goes on: [load] returns a loader without the
    invalid task. *)
Example load_guarded_export :
  fst (fst (ThermosConfigLoader.load (P := Samples.python) "guarded.thermos"
              Samples.no_kw Samples.config_disk Samples.vocabulary))
  = Ok (mkLoader _ [Some (mkTaskWrapper _ Samples.greeter)])
  /\ snd (ThermosConfigLoader.load (P := Samples.python) "guarded.thermos"
            Samples.no_kw Samples.config_disk Samples.vocabulary)
     = [ExportCall Samples.broken; ExportCall Samples.greeter].
Proof. split; reflexivity. Qed.

(** C6 as stated does not hold: a task passed to [export] whose
    construction raised, in a source that catches the exception, is not
    among the tasks of the loader that [load] returns. *)
Lemma load_guarded_export_counterexample :
  ~ (forall (L : Library) (P : Python) (filename : string) (kw : kwargs)
       (fs : filesystem) (st st' : store) (tc : ThermosConfigLoader) (log : list event),
       ThermosConfigLoader.load filename kw fs st = (Ok tc, st', log) ->
       exists wrappers,
         Forall2 (fun ev wrapper => ThermosTaskWrapper.new (event_arg ev) kw = Ok wrapper)
                 log wrappers
         /\ ThermosConfigLoader.tasks tc = Some <$> wrappers).
Proof.
  intros Hclaim.
  pose (outcome := ThermosConfigLoader.load (P := Samples.python) "guarded.thermos"
                     Samples.no_kw Samples.config_disk Samples.vocabulary).
  assert (Hloader : fst (fst outcome) = Ok (mkLoader _ [Some (mkTaskWrapper _ Samples.greeter)]))
    by reflexivity.
  assert (Hlog : snd outcome = [ExportCall Samples.broken; ExportCall Samples.greeter])
    by reflexivity.
  assert (Hload : outcome
                  = (Ok (mkLoader _ [Some (mkTaskWrapper _ Samples.greeter)]),
                     store_after_load outcome,
                     [ExportCall Samples.broken; ExportCall Samples.greeter])).
  { rewrite <- Hloader, <- Hlog. unfold store_after_load.
    destruct outcome as [[r st'] log]. reflexivity. }
  destruct (Hclaim Reference.library Samples.python _ _ _ _ _ _ _ Hload)
    as (wrappers & Hall & _).
  assert (Hraised : match ThermosTaskWrapper.new Samples.broken Samples.no_kw with
                    | Ok _ => true
                    | Raise _ => false
                    end = false)
    by (vm_compute; reflexivity).
  inversion Hall as [|ev wrapper evs wrappers' Hnew _]; subst.
  cbn [event_arg] in Hnew. rewrite Hnew in Hraised. discriminate.
Qed.

(** ** The evaluation namespace *)

(** Evaluation writes to the dictionary it was given as globals and to no
    other. *)
Lemma run_frame {L : Library} (code : script) (l : nat) (kw : kwargs) :
  forall (st : store) (tc : ThermosConfigLoader) (log : list event),
    let st' := store_after_exec (ThermosConfigLoader.run code (DictRef l) kw st tc log) in
    SCHEMA st' = SCHEMA st
    /\ forall l', l' <> l -> dicts st' !! l' = dicts st !! l'.
Proof.
  induction code as [|e|name k IH|name v k IH|name k IH|f arg k IH];
    intros st tc log; cbn [ThermosConfigLoader.run].
  - split; reflexivity.
  - split; reflexivity.
  - apply IH.
  - destruct (IH (ThermosConfigLoader.setitem (DictRef l) name v st) tc log) as [HS HD].
    split; [exact HS|]. intros l' Hne. rewrite (HD l' Hne). cbn.
    apply lookup_insert_ne. congruence.
  - destruct (ThermosConfigLoader.dict_read (DictRef l) st !! name); [|apply IH].
    destruct (IH true (ThermosConfigLoader.delitem (DictRef l) name st) tc log) as [HS HD].
    split; [exact HS|]. intros l' Hne. rewrite (HD l' Hne). cbn.
    apply lookup_insert_ne. congruence.
  - destruct f; try apply IH.
    destruct (ThermosConfigLoader.export kw arg tc); apply IH.
Qed.

Lemma exec_function_frame {L : Library} (code : script) (l : nat) (kw : kwargs)
    (st : store) (tc : ThermosConfigLoader) :
  let st' := store_after_exec (ThermosConfigLoader.exec_function code (DictRef l) kw st tc) in
  SCHEMA st' = SCHEMA st
  /\ forall l', l' <> l -> dicts st' !! l' = dicts st !! l'.
Proof.
  unfold ThermosConfigLoader.exec_function.
  destruct (ThermosConfigLoader.dict_read (DictRef l) st !! "__builtins__").
  - apply run_frame.
  - match goal with
    | |- context [ThermosConfigLoader.run code _ kw ?s tc []] =>
        destruct (run_frame code l kw s tc []) as [HS HD]
    end.
    split; [exact HS|]. intros l' Hne. rewrite (HD l' Hne). cbn.
    apply lookup_insert_ne. congruence.
Qed.

(** C8.  [load] evaluates the source in a dictionary of its own: a new
    object that starts with the bindings of [SCHEMA], to the same objects,
    plus [export].  Whatever the source does to its namespace, and however
    the call ends, [SCHEMA] and the dictionaries that existed before are as
    they were; so the namespace a later [load] builds from [SCHEMA] is the
    same as if this call had not happened. *)
Theorem load_preserves_SCHEMA {L : Library} {P : Python} (filename : string)
    (kw : kwargs) (fs : filesystem) (st : store) :
  let namespace := fst (ThermosConfigLoader.copy SchemaRef st) in
  let st' := store_after_load (ThermosConfigLoader.load filename kw fs st) in
  (exists l, namespace = DictRef l /\ dicts st !! l = None)
  /\ ThermosConfigLoader.dict_read namespace
       (snd (ThermosConfigLoader.copy SchemaRef st)) = SCHEMA st
  /\ SCHEMA st' = SCHEMA st
  /\ (forall l m, dicts st !! l = Some m -> dicts st' !! l = Some m)
  /\ (let next := ThermosConfigLoader.copy SchemaRef st' in
      ThermosConfigLoader.dict_read (fst next) (snd next) = SCHEMA st).
Proof.
  set (l := fresh (dom (dicts st))).
  assert (Hfresh : dicts st !! l = None)
    by (apply not_elem_of_dom; apply is_fresh).
  assert (Hframe : let st' := store_after_load (ThermosConfigLoader.load filename kw fs st) in
                   SCHEMA st' = SCHEMA st
                   /\ forall l', l' <> l -> dicts st' !! l' = dicts st !! l').
  { unfold ThermosConfigLoader.load, ThermosConfigLoader.copy. fold l.
    destruct (read_file fs filename) as [source|e].
    - destruct (compile source filename) as [code|e].
      + match goal with
        | |- context [ThermosConfigLoader.exec_function code (DictRef l) kw ?s ?t] =>
            pose proof (exec_function_frame code l kw s t) as Hexec;
            destruct (ThermosConfigLoader.exec_function code (DictRef l) kw s t)
              as [[[r st2] tc2] log2]
        end.
        cbn in Hexec |- *. destruct Hexec as [HS HD]. split; [exact HS|].
        intros l' Hne. rewrite (HD l' Hne). rewrite lookup_insert_ne by congruence.
        apply lookup_insert_ne. congruence.
      + cbn. split; [reflexivity|]. intros l' Hne.
        rewrite lookup_insert_ne by congruence. apply lookup_insert_ne. congruence.
    - cbn. split; [reflexivity|]. intros l' Hne.
      rewrite lookup_insert_ne by congruence. apply lookup_insert_ne. congruence. }
  cbn zeta in Hframe. destruct Hframe as [HS HD].
  cbn zeta. split; [|split; [|split; [|split]]].
  - exists l. split; [reflexivity | exact Hfresh].
  - cbn. rewrite lookup_insert_eq. reflexivity.
  - exact HS.
  - intros l' m Hm. rewrite HD; [exact Hm|]. intros ->. congruence.
  - cbn. rewrite lookup_insert_eq. cbn. exact HS.
Qed.

(** Evaluated with [SCHEMA] itself as globals, the same source does change
    [SCHEMA]: the copy is what keeps it apart. *)
Example exec_in_SCHEMA_itself :
  SCHEMA (store_after_exec
            (ThermosConfigLoader.exec_function Samples.rebinding SchemaRef Samples.no_kw
               Samples.vocabulary ThermosConfigLoader.__init__)) !! "jvm"
  = Some (VObject 8)
  /\ SCHEMA Samples.vocabulary !! "jvm" = None.
Proof. split; reflexivity. Qed.

(** A source that rebinds [export] and binds [jvm]: its namespace, the new
    dictionary, has both; [SCHEMA] has neither. *)
Lemma load_preserves_SCHEMA_witness :
  let st' := store_after_load
               (ThermosConfigLoader.load (P := Samples.python) "rebind.thermos"
                  Samples.no_kw Samples.config_disk Samples.vocabulary) in
  dicts st' !! fresh (dom (dicts Samples.vocabulary))
  = Some (<["jvm" := VObject 8]>
            (<["export" := VObject 7]>
               (<["__builtins__" := VBuiltins]> (SCHEMA Samples.vocabulary))))
  /\ SCHEMA st' = SCHEMA Samples.vocabulary.
Proof.
  split; [reflexivity|].
  apply (load_preserves_SCHEMA (P := Samples.python) "rebind.thermos" Samples.no_kw
           Samples.config_disk Samples.vocabulary).
Defined.

(** * Properties of the command-line client *)

(** ** Strings *)

Lemma str_compare_trans (s1 s2 s3 : string) :
  String.compare s1 s2 <> Gt -> String.compare s2 s3 <> Gt -> String.compare s1 s3 <> Gt.
Proof.
  revert s2 s3. induction s1 as [|a s1 IH]; intros [|b s2] [|c s3]; cbn;
    try congruence.
  unfold Ascii.compare.
  destruct (N.compare_spec (N_of_ascii a) (N_of_ascii b)) as [Hab|Hab|Hab],
           (N.compare_spec (N_of_ascii b) (N_of_ascii c)) as [Hbc|Hbc|Hbc],
           (N.compare_spec (N_of_ascii a) (N_of_ascii c)) as [Hac|Hac|Hac];
    try congruence; try lia; eauto.
Qed.

Lemma str_le_transitive : Transitive str_le.
Proof.
  intros s1 s2 s3. unfold str_le, String.leb. intros H12 H23.
  pose proof (str_compare_trans s1 s2 s3) as Htrans.
  destruct (String.compare s1 s2), (String.compare s2 s3), (String.compare s1 s3);
    try discriminate; try reflexivity; exfalso; apply Htrans; congruence.
Qed.

Lemma str_le_total : Total str_le.
Proof. intros s1 s2. apply String.leb_total. Qed.

Lemma str_le_antisymm : AntiSymm (=) str_le.
Proof. intros s1 s2. apply String.leb_antisym. Qed.

Lemma str_sort_sorted (l : list string) : Sorted str_le (str_sort l).
Proof. apply (@Sorted_merge_sort _ str_le _ str_le_total). Qed.

Lemma str_sort_permutation (l : list string) : str_sort l ≡ₚ l.
Proof. apply merge_sort_Permutation. Qed.

(** Sorting forgets the order of its input. *)
Lemma str_sort_unique (l l' : list string) : l ≡ₚ l' -> str_sort l = str_sort l'.
Proof.
  intros Hperm.
  apply (@Sorted_unique _ str_le str_le_transitive str_le_antisymm);
    [apply str_sort_sorted | apply str_sort_sorted |].
  rewrite !str_sort_permutation. exact Hperm.
Qed.

Lemma str_sort_sorted_id (l : list string) : Sorted str_le l -> str_sort l = l.
Proof.
  intros Hsorted.
  apply (@Sorted_unique _ str_le str_le_transitive str_le_antisymm);
    [apply str_sort_sorted | exact Hsorted | apply str_sort_permutation].
Qed.

Lemma str_sort_nil_inv (l : list string) : str_sort l = [] -> l = [].
Proof.
  intros Hnil. apply Permutation_nil_r. rewrite <- Hnil.
  symmetry. apply str_sort_permutation.
Qed.

Lemma str_prefix_append (s t : string) : String.prefix s (s +:+ t) = true.
Proof.
  induction s as [|a s IH]; simpl.
  - destruct t; reflexivity.
  - destruct (ascii_dec a a); [exact IH | contradiction].
Qed.

Lemma str_prefix_refl (s : string) : String.prefix s s = true.
Proof.
  induction s as [|a s IH]; simpl; [reflexivity|].
  destruct (ascii_dec a a); [exact IH | contradiction].
Qed.

(** ** make_commands_str *)

(** X1.  [make_commands_str] depends on which commands it is given, not on
    their order: for two lists with the same commands it returns the same
    text and leaves both lists in the same, sorted, state. *)
Theorem make_commands_str_order (commands commands' : list string) :
  commands ≡ₚ commands' ->
  MesosClient.make_commands_str commands = MesosClient.make_commands_str commands'
  /\ Sorted str_le (snd (MesosClient.make_commands_str commands))
  /\ snd (MesosClient.make_commands_str commands) ≡ₚ commands.
Proof.
  intros Hperm. unfold MesosClient.make_commands_str.
  rewrite (str_sort_unique _ _ Hperm). cbn [snd].
  split; [reflexivity|]. split.
  - apply str_sort_sorted.
  - rewrite str_sort_permutation. symmetry. exact Hperm.
Qed.

Lemma make_commands_str_order_witness :
  MesosClient.make_commands_str ["kill"; "create"; "update"]
  = MesosClient.make_commands_str ["update"; "kill"; "create"]
  /\ fst (MesosClient.make_commands_str ["kill"; "create"; "update"])
     = Ok "create (or any of: kill update)".
Proof.
  split.
  - apply (make_commands_str_order ["kill"; "create"; "update"] ["update"; "kill"; "create"]).
    symmetry. apply (Permutation_cons_append ["kill"; "create"] "update").
  - vm_compute. reflexivity.
Defined.

(** X2.  [make_commands_str] raises [IndexError] exactly on the empty list.
    On any other list it returns a text that begins with the least of the
    commands. *)
Theorem make_commands_str_least (commands : list string) :
  (fst (MesosClient.make_commands_str commands) = Raise IndexError <-> commands = [])
  /\ (commands <> [] ->
      exists least text,
        fst (MesosClient.make_commands_str commands) = Ok text
        /\ least ∈ commands
        /\ (forall c, c ∈ commands -> str_le least c)
        /\ String.prefix least text = true).
Proof.
  unfold MesosClient.make_commands_str. cbn [fst].
  pose proof (str_sort_sorted commands) as Hsorted.
  pose proof (str_sort_permutation commands) as Hperm.
  destruct (str_sort commands) as [|c0 rest] eqn:Hsort.
  - apply str_sort_nil_inv in Hsort. subst commands.
    split; [split; reflexivity | intros []; reflexivity].
  - assert (Hne : commands <> []).
    { intros ->. apply Permutation_nil_r in Hperm. discriminate. }
    split.
    { split; [destruct rest as [|? [|? ?]]; discriminate | contradiction]. }
    intros _.
    assert (Hleast : forall c, c ∈ commands -> str_le c0 c).
    { intros c Hc. rewrite <- Hperm in Hc.
      apply (@Sorted_StronglySorted _ str_le str_le_transitive) in Hsorted.
      apply StronglySorted_inv in Hsorted as [_ Hall].
      apply elem_of_cons in Hc as [->|Hc].
      - destruct (str_le_total c0 c0); assumption.
      - rewrite Forall_forall in Hall. apply Hall. assumption. }
    assert (Hin : c0 ∈ commands) by (rewrite <- Hperm; apply elem_of_cons; auto).
    destruct rest as [|c1 [|c2 rest]]; eexists c0, _;
      (split; [reflexivity|]); (split; [exact Hin|]); (split; [exact Hleast|]).
    + apply str_prefix_refl.
    + apply str_prefix_append.
    + apply str_prefix_append.
Qed.

Lemma make_commands_str_least_witness :
  exists least text,
    fst (MesosClient.make_commands_str ["spawn"; "create"]) = Ok text
    /\ least ∈ ["spawn"; "create"]
    /\ (forall c, c ∈ ["spawn"; "create"] -> str_le least c)
    /\ String.prefix least text = true.
Proof.
  apply (proj2 (make_commands_str_least ["spawn"; "create"])). discriminate.
Defined.

(** ** generate_terse_usage *)

Lemma result_mapM_ok {A B : Type} (f : A -> result B) (g : A -> B) (l : list A) :
  (forall x, x ∈ l -> f x = Ok (g x)) -> mapM f l = Ok (map g l).
Proof.
  induction l as [|x l IH]; intros Hall; [reflexivity|].
  cbn. rewrite (Hall x) by (apply elem_of_cons; auto). cbn.
  rewrite IH by (intros y Hy; apply Hall, elem_of_cons; auto). reflexivity.
Qed.

(** After the loop, a docstring is a key exactly when some command has it,
    and its value lists these commands in registration order. *)
Lemma docs_to_commands_lookup (cds : list (string * option string)) (doc : option string) :
  MesosClient.docs_to_commands cds !! doc
  = match (filter (fun cd => snd cd = doc) cds).*1 with
    | [] => None
    | commands => Some commands
    end.
Proof.
  induction cds as [|[command doc'] cds IH] using rev_ind; [reflexivity|].
  unfold MesosClient.docs_to_commands in *. rewrite foldl_snoc. cbn [fst snd].
  rewrite filter_app, fmap_app.
  destruct (decide (doc' = doc)) as [->|Hne].
  - rewrite lookup_insert_eq, IH.
    rewrite (filter_cons_True _ (command, doc)) by reflexivity.
    rewrite filter_nil. cbn [fmap list_fmap fst].
    destruct ((filter (fun cd => snd cd = doc) cds).*1) as [|c cs]; reflexivity.
  - rewrite lookup_insert_ne by assumption. rewrite IH.
    rewrite (filter_cons_False _ (command, doc')) by assumption.
    rewrite filter_nil. cbn [fmap list_fmap]. rewrite app_nil_r. reflexivity.
Qed.

Lemma docs_to_commands_nonempty (cds : list (string * option string))
    (group : list string) :
  group ∈ map snd (map_to_list (MesosClient.docs_to_commands cds)) -> group <> [].
Proof.
  intros Hin. apply list_elem_of_fmap in Hin as ([doc group'] & -> & Hin).
  apply elem_of_map_to_list in Hin. rewrite docs_to_commands_lookup in Hin.
  cbn [snd]. destruct ((filter (fun cd => snd cd = doc) cds).*1); [discriminate|].
  injection Hin as <-. discriminate.
Qed.

Lemma make_commands_str_sorted_arg (commands : list string) :
  fst (MesosClient.make_commands_str (str_sort commands))
  = fst (MesosClient.make_commands_str commands).
Proof.
  unfold MesosClient.make_commands_str. cbn [fst].
  rewrite (str_sort_sorted_id (str_sort commands)) by apply str_sort_sorted.
  reflexivity.
Qed.

Lemma make_commands_str_ok (commands : list string) :
  commands <> [] ->
  exists text, fst (MesosClient.make_commands_str commands) = Ok text.
Proof.
  intros Hne. unfold MesosClient.make_commands_str. cbn [fst].
  destruct (str_sort commands) as [|c0 [|c1 [|c2 rest]]] eqn:Hsort;
    try (eexists; reflexivity).
  apply str_sort_nil_inv in Hsort. contradiction.
Qed.

Lemma docs_to_commands_sorted (cds cds' : list (string * option string)) :
  cds ≡ₚ cds' ->
  str_sort <$> MesosClient.docs_to_commands cds
  = str_sort <$> MesosClient.docs_to_commands cds'.
Proof.
  intros Hperm. apply map_eq. intros doc.
  rewrite !lookup_fmap, !docs_to_commands_lookup.
  assert (Hgroup : (filter (fun cd => snd cd = doc) cds).*1
                   ≡ₚ (filter (fun cd => snd cd = doc) cds').*1)
    by (rewrite Hperm; reflexivity).
  destruct ((filter (fun cd => snd cd = doc) cds).*1) as [|c cs],
           ((filter (fun cd => snd cd = doc) cds').*1) as [|c' cs'].
  - reflexivity.
  - apply Permutation_nil_l in Hgroup. discriminate.
  - apply Permutation_nil_r in Hgroup. discriminate.
  - change (Some (str_sort (c :: cs)) = Some (str_sort (c' :: cs'))).
    f_equal. apply str_sort_unique. exact Hgroup.
Qed.

Lemma terse_texts (groups : list (list string)) :
  Forall (fun group => group <> []) groups ->
  mapM (fun commands => fst (MesosClient.make_commands_str commands)) groups
  = Ok (map (fun commands =>
               match fst (MesosClient.make_commands_str commands) with
               | Ok text => text
               | Raise _ => EmptyString
               end) groups).
Proof.
  intros Hall. apply result_mapM_ok. intros group Hin.
  rewrite Forall_forall in Hall.
  destruct (make_commands_str_ok group (Hall _ Hin)) as [text ->]. reflexivity.
Qed.

Lemma terse_texts_permutation (cds cds' : list (string * option string))
    (f : list string -> string) :
  (forall commands, f (str_sort commands) = f commands) ->
  cds ≡ₚ cds' ->
  map f (map snd (map_to_list (MesosClient.docs_to_commands cds)))
  = map f (map snd (map_to_list (MesosClient.docs_to_commands cds'))).
Proof.
  intros Hf Hperm.
  assert (Hnorm : forall m : gmap (option string) (list string),
             map f (map snd (map_to_list m))
             = map f (map snd (map_to_list (str_sort <$> m)))).
  { intros m. rewrite map_to_list_fmap.
    induction (map_to_list m) as [|[doc group] l IH]; [reflexivity|].
    cbn. rewrite Hf. f_equal. exact IH. }
  rewrite (Hnorm (MesosClient.docs_to_commands cds)),
          (Hnorm (MesosClient.docs_to_commands cds')).
  rewrite (docs_to_commands_sorted _ _ Hperm). reflexivity.
Qed.

(** X3.  [generate_terse_usage] always returns: the lists it hands to
    [make_commands_str] are never empty, in whatever order the dictionary
    yields them. *)
Theorem generate_terse_usage_returns (name : string)
    (commands_and_docstrings : list (string * option string)) :
  returns (MesosClient.generate_terse_usage name commands_and_docstrings)
  /\ forall groups,
      groups ≡ₚ map snd (map_to_list (MesosClient.docs_to_commands commands_and_docstrings)) ->
      returns (MesosClient.terse_usage name groups).
Proof.
  assert (Hgen : forall groups,
             groups ≡ₚ map snd (map_to_list
                                  (MesosClient.docs_to_commands commands_and_docstrings)) ->
             returns (MesosClient.terse_usage name groups)).
  { intros groups Hperm. unfold MesosClient.terse_usage.
    rewrite terse_texts.
    - eexists. reflexivity.
    - apply Forall_forall. intros group Hin. rewrite Hperm in Hin.
      exact (docs_to_commands_nonempty _ _ Hin). }
  split; [apply Hgen; reflexivity | exact Hgen].
Qed.

Lemma generate_terse_usage_returns_witness :
  returns (MesosClient.terse_usage "mesos-client" [["kill"]; ["create"; "update"]]).
Proof.
  apply (proj2 (generate_terse_usage_returns "mesos-client"
                  [("create", Some "d1"); ("kill", Some "d2"); ("update", Some "d1")])).
  vm_compute. first [reflexivity | apply perm_swap].
Defined.

(** X4.  The text of [generate_terse_usage] does not depend on the order in
    which the commands were registered, nor on the order in which the
    dictionary yields its values. *)
Theorem generate_terse_usage_order (name : string)
    (cds cds' : list (string * option string)) (groups groups' : list (list string)) :
  cds ≡ₚ cds' ->
  groups ≡ₚ map snd (map_to_list (MesosClient.docs_to_commands cds)) ->
  groups' ≡ₚ map snd (map_to_list (MesosClient.docs_to_commands cds')) ->
  MesosClient.terse_usage name groups = MesosClient.terse_usage name groups'
  /\ MesosClient.generate_terse_usage name cds = MesosClient.generate_terse_usage name cds'.
Proof.
  intros Hperm Hgroups Hgroups'.
  assert (Hgen : forall gs gs',
             gs ≡ₚ map snd (map_to_list (MesosClient.docs_to_commands cds)) ->
             gs' ≡ₚ map snd (map_to_list (MesosClient.docs_to_commands cds')) ->
             MesosClient.terse_usage name gs = MesosClient.terse_usage name gs').
  { intros gs gs' Hgs Hgs'. unfold MesosClient.terse_usage.
    rewrite !terse_texts.
    - match goal with |- context [map ?T gs] => set (text := T) end.
      assert (Hs : str_sort (map text gs) = str_sort (map text gs')).
      { apply str_sort_unique. rewrite Hgs, Hgs'.
        rewrite (terse_texts_permutation cds cds'); [reflexivity| |exact Hperm].
        intros commands. subst text. cbn beta.
        rewrite make_commands_str_sorted_arg. reflexivity. }
      cbn [mbind result_bind]. rewrite Hs. reflexivity.
    - apply Forall_forall. intros group Hin. rewrite Hgs' in Hin.
      exact (docs_to_commands_nonempty _ _ Hin).
    - apply Forall_forall. intros group Hin. rewrite Hgs in Hin.
      exact (docs_to_commands_nonempty _ _ Hin). }
  split; [exact (Hgen _ _ Hgroups Hgroups') | apply Hgen; reflexivity].
Qed.

Lemma generate_terse_usage_order_witness :
  MesosClient.generate_terse_usage "mesos-client"
    [("create", Some "d1"); ("kill", Some "d2"); ("update", Some "d1")]
  = MesosClient.generate_terse_usage "mesos-client"
      [("update", Some "d1"); ("create", Some "d1"); ("kill", Some "d2")].
Proof.
  refine (proj2 (generate_terse_usage_order "mesos-client"
           [("create", Some "d1"); ("kill", Some "d2"); ("update", Some "d1")]
           [("update", Some "d1"); ("create", Some "d1"); ("kill", Some "d2")]
           (map snd (map_to_list (MesosClient.docs_to_commands
              [("create", Some "d1"); ("kill", Some "d2"); ("update", Some "d1")])))
           (map snd (map_to_list (MesosClient.docs_to_commands
              [("update", Some "d1"); ("create", Some "d1"); ("kill", Some "d2")])))
           _ _ _)); [|reflexivity..].
  symmetry. apply (Permutation_cons_append [("create", Some "d1"); ("kill", Some "d2")]).
Defined.

(** ** split and join *)

Lemma str_split_nonempty (sep : ascii) (s : string) : str_split sep s <> [].
Proof.
  destruct s as [|a s]; cbn; [discriminate|].
  destruct (bool_decide (a = sep)); [discriminate|].
  destruct (str_split sep s); discriminate.
Qed.

Lemma str_split_length (sep : ascii) (s : string) :
  length (str_split sep s) = S (str_count sep s).
Proof.
  induction s as [|a s IH]; cbn; [reflexivity|].
  destruct (bool_decide (a = sep)); cbn; [rewrite IH; reflexivity|].
  destruct (str_split sep s); cbn in *; [discriminate | exact IH].
Qed.

Lemma str_join_cons (sep s : string) (p : string) (l : list string) :
  str_join sep (s :: p :: l) = s +:+ sep +:+ str_join sep (p :: l).
Proof. reflexivity. Qed.

(** Joining the pieces with the separator gives the string back. *)
Lemma str_split_join (sep : ascii) (s : string) :
  str_join (String sep EmptyString) (str_split sep s) = s.
Proof.
  induction s as [|a s IH]; [reflexivity|]. cbn [str_split].
  pose proof (str_split_nonempty sep s) as Hne.
  destruct (bool_decide (a = sep)) eqn:Ha.
  - apply bool_decide_eq_true in Ha. subst a.
    destruct (str_split sep s) as [|p l]; [contradiction|].
    rewrite str_join_cons, IH. reflexivity.
  - destruct (str_split sep s) as [|p [|q l]]; [contradiction| |].
    + rewrite <- IH. reflexivity.
    + rewrite <- IH. reflexivity.
Qed.

(** No piece contains the separator. *)
Lemma str_split_pieces (sep : ascii) (s : string) :
  Forall (fun piece => str_count sep piece = 0) (str_split sep s).
Proof.
  induction s as [|a s IH]; cbn [str_split]; [repeat constructor|].
  destruct (bool_decide (a = sep)) eqn:Ha; [constructor; [reflexivity | exact IH]|].
  destruct (str_split sep s) as [|p l]; [repeat constructor; cbn; rewrite Ha; reflexivity|].
  inversion IH as [|? ? Hp Hl]; subst. constructor; [|exact Hl].
  cbn. rewrite Ha. exact Hp.
Qed.

Lemma str_split_append (sep : ascii) (piece rest : string) :
  str_count sep piece = 0 ->
  str_split sep (piece +:+ String sep rest) = piece :: str_split sep rest.
Proof.
  induction piece as [|a piece IH]; simpl.
  - intros _. rewrite bool_decide_eq_true_2 by reflexivity. reflexivity.
  - destruct (bool_decide (a = sep)); [discriminate|]. intros Hcount.
    rewrite (IH Hcount). reflexivity.
Qed.

Lemma str_split_whole (sep : ascii) (piece : string) :
  str_count sep piece = 0 -> str_split sep piece = [piece].
Proof.
  induction piece as [|a piece IH]; simpl; [reflexivity|].
  destruct (bool_decide (a = sep)); [discriminate|]. intros Hcount.
  rewrite (IH Hcount). reflexivity.
Qed.

(** Splitting a join of separator-free pieces gives the pieces back. *)
Lemma str_join_split (sep : ascii) (pieces : list string) :
  pieces <> [] ->
  Forall (fun piece => str_count sep piece = 0) pieces ->
  str_split sep (str_join (String sep EmptyString) pieces) = pieces.
Proof.
  induction pieces as [|p [|q l] IH]; intros Hne Hall; [contradiction| |].
  - inversion Hall; subst. apply str_split_whole. assumption.
  - inversion Hall as [|? ? Hp Hl]; subst. rewrite str_join_cons.
    change (p +:+ String sep EmptyString +:+ str_join (String sep EmptyString) (q :: l))
      with (p +:+ String sep (str_join (String sep EmptyString) (q :: l))).
    rewrite (str_split_append _ _ _ Hp). rewrite IH; [reflexivity|discriminate|exact Hl].
Qed.

(** ** parse_package *)

(** X5.  [parse_package] accepts a value exactly when it has two colons.
    It then stores under [dest] the three parts [role], [name] and [version],
    none of which has a colon and which joined by colons are the value, and
    leaves the other attributes as they were; any other value is an
    [OptionValueError]. *)
Theorem parse_package_spec (dest value : string) (values : gmap string (list string)) :
  (str_count ":" value = 2 ->
   exists role name version,
     MesosClient.parse_package dest (Some value) values
     = MesosClient.Done (<[dest := [role; name; version]]> values)
     /\ value = role +:+ ":" +:+ name +:+ ":" +:+ version
     /\ str_count ":" role = 0 /\ str_count ":" name = 0 /\ str_count ":" version = 0
     /\ forall other, other <> dest ->
          <[dest := [role; name; version]]> values !! other = values !! other)
  /\ (str_count ":" value <> 2 ->
      MesosClient.parse_package dest (Some value) values
      = MesosClient.OptionValueError
          "Expected package to be of the form role:name:version").
Proof.
  unfold MesosClient.parse_package.
  pose proof (str_split_length ":" value) as Hlen.
  pose proof (str_split_join ":" value) as Hjoin.
  pose proof (str_split_pieces ":" value) as Hpieces.
  split.
  - intros Hcount. rewrite Hcount in Hlen.
    destruct (str_split ":" value) as [|role [|name [|version [|? ?]]]];
      try discriminate.
    exists role, name, version.
    rewrite bool_decide_eq_false_2 by (cbn; lia).
    apply Forall_cons in Hpieces as [Hr Hrest].
    apply Forall_cons in Hrest as [Hn Hrest].
    apply Forall_cons in Hrest as [Hv _].
    split; [reflexivity|]. split; [symmetry; exact Hjoin|].
    repeat (split; [assumption|]).
    intros other Hne. apply lookup_insert_ne. congruence.
  - intros Hcount. rewrite bool_decide_eq_true_2; [reflexivity|].
    rewrite Hlen. lia.
Qed.

Lemma parse_package_witness :
  (exists role name version,
     MesosClient.parse_package "package" (Some "www:frontend:latest") ∅
     = MesosClient.Done (<["package" := [role; name; version]]> ∅)
     /\ "www:frontend:latest" = role +:+ ":" +:+ name +:+ ":" +:+ version)
  /\ MesosClient.parse_package "package" (Some "frontend:latest") ∅
     = MesosClient.OptionValueError
         "Expected package to be of the form role:name:version".
Proof.
  split.
  - destruct (proj1 (parse_package_spec "package" "www:frontend:latest" ∅) eq_refl)
      as (role & name & version & Hdone & Hvalue & _).
    exists role, name, version. split; assumption.
  - apply (proj2 (parse_package_spec "package" "frontend:latest" ∅)). vm_compute. lia.
Defined.

(** ** _getshards *)

(** X6.  [_getshards] returns [None] for no option value and for the empty
    string.  For a non-empty value, it returns the numbers of the
    comma-separated pieces, in order, when [int] accepts every piece, and
    dies when [int] rejects one of them, an empty piece included. *)
Theorem getshards_spec {P : PyLib} (pieces : list string) :
  MesosClient._getshards None = MesosClient.Done None
  /\ MesosClient._getshards (Some EmptyString) = MesosClient.Done None
  /\ (pieces <> [] ->
      Forall (fun piece => str_count "," piece = 0) pieces ->
      str_join "," pieces <> EmptyString ->
      (forall ids, Forall2 (fun piece id => int_ piece = Some id) pieces ids ->
         MesosClient._getshards (Some (str_join "," pieces)) = MesosClient.Done (Some ids))
      /\ (Exists (fun piece => int_ piece = None) pieces ->
          MesosClient._getshards (Some (str_join "," pieces))
          = MesosClient.Die ("Invalid shards list: " +:+ repr_ (str_join "," pieces)))).
Proof.
  split; [reflexivity|]. split; [reflexivity|].
  intros Hne Hpieces Hjoined. unfold MesosClient._getshards.
  assert (str_truthy (Some (str_join "," pieces)) = true) as ->
    by (cbn; destruct (str_join "," pieces); [contradiction | reflexivity]).
  cbn [default from_option id].
  change (default EmptyString (Some (str_join "," pieces))) with (str_join "," pieces).
  rewrite (str_join_split "," pieces Hne Hpieces). split.
  - intros ids Hids. rewrite (mapM_Some_2 _ _ _ Hids). reflexivity.
  - intros Hbad. rewrite (mapM_None_2 _ _ Hbad). reflexivity.
Qed.

Lemma getshards_witness :
  @MesosClient._getshards ClientSamples.lib (Some "0,3,12")
  = MesosClient.Done (Some [0; 3; 12]%Z)
  /\ @MesosClient._getshards ClientSamples.lib (Some "0,3,")
     = MesosClient.Die "Invalid shards list: '0,3,'".
Proof.
  split.
  - apply (proj1 (proj2 (proj2 (@getshards_spec ClientSamples.lib ["0"; "3"; "12"]))
                   ltac:(discriminate) ltac:(repeat constructor) ltac:(discriminate))).
    repeat constructor.
  - apply (proj2 (proj2 (proj2 (@getshards_spec ClientSamples.lib ["0"; "3"; ""]))
                   ltac:(discriminate) ltac:(repeat constructor) ltac:(discriminate))).
    do 2 constructor 2. constructor. reflexivity.
Defined.

(** ** synthesize_url and handle_open *)

(** X7.  Without a scheduler URL, [synthesize_url] logs a warning and returns
    [None], whatever the role and the job.  With one, a job without a role
    makes it die; with a role, it returns the URL of the role, which extends
    [urljoin(url, 'scheduler')], and for a job the URL of the role followed
    by a slash and the job. *)
Theorem synthesize_url_spec {P : PyLib} (url role job : option string) :
  (str_truthy url = false ->
   MesosClient.synthesize_url url role job
   = (MesosClient.Done None,
      MesosClient.mkEffects [("warning", "Unable to find scheduler web UI!")] []))
  /\ (str_truthy url = true -> str_truthy job = true -> str_truthy role = false ->
      MesosClient.synthesize_url url role job
      = (MesosClient.Die "If job specified, must specify role!", MesosClient.quiet))
  /\ (str_truthy url = true -> str_truthy role = true ->
      exists role_url,
        MesosClient.synthesize_url url role None
        = (MesosClient.Done (Some role_url), MesosClient.quiet)
        /\ String.prefix (urljoin (default EmptyString url) "scheduler") role_url = true
        /\ (str_truthy job = true ->
            MesosClient.synthesize_url url role job
            = (MesosClient.Done (Some (role_url +:+ "/" +:+ default EmptyString job)),
               MesosClient.quiet))).
Proof.
  unfold MesosClient.synthesize_url. split; [|split].
  - intros ->. reflexivity.
  - intros -> -> ->. reflexivity.
  - intros -> Hrole. rewrite Hrole. cbn [negb andb str_truthy].
    rewrite andb_false_r. eexists. split; [reflexivity|]. split.
    + apply str_prefix_append.
    + intros ->. reflexivity.
Qed.

Lemma synthesize_url_witness :
  @MesosClient.synthesize_url ClientSamples.lib (Some "http://smf1:8081") (Some "www")
    (Some "frontend")
  = (MesosClient.Done (Some "http://smf1:8081/scheduler/www/frontend"), MesosClient.quiet)
  /\ @MesosClient.synthesize_url ClientSamples.lib (Some "http://smf1:8081") None
       (Some "frontend")
     = (MesosClient.Die "If job specified, must specify role!", MesosClient.quiet).
Proof.
  split.
  - destruct (proj2 (proj2 (@synthesize_url_spec ClientSamples.lib
                              (Some "http://smf1:8081") (Some "www") (Some "frontend")))
                eq_refl eq_refl) as (role_url & Hrole & _ & Hjob).
    rewrite (Hjob eq_refl). vm_compute in Hrole. injection Hrole as <-.
    reflexivity.
  - apply (proj1 (proj2 (@synthesize_url_spec ClientSamples.lib
                           (Some "http://smf1:8081") None (Some "frontend"))));
      reflexivity.
Defined.

(** X8.  [handle_open] opens at most one browser tab, and none unless
    [open_browser] is set; a tab it opens shows the URL that
    [synthesize_url] returned and that it logged.  It dies exactly when
    [synthesize_url] dies. *)
Theorem handle_open_spec {P : PyLib} (open_browser : bool) (url role job : option string) :
  let outcome := MesosClient.handle_open open_browser url role job in
  (open_browser = false -> MesosClient.opened (snd outcome) = [])
  /\ length (MesosClient.opened (snd outcome)) <= 1
  /\ (forall tab, tab ∈ MesosClient.opened (snd outcome) ->
        fst (MesosClient.synthesize_url url role job) = MesosClient.Done (Some tab)
        /\ ("info", "Job url: " +:+ tab) ∈ MesosClient.logged (snd outcome))
  /\ (forall msg, fst outcome = MesosClient.Die msg
                  <-> fst (MesosClient.synthesize_url url role job) = MesosClient.Die msg).
Proof.
  cbn zeta. unfold MesosClient.handle_open.
  assert (Hopened : MesosClient.opened (snd (MesosClient.synthesize_url url role job)) = []).
  { unfold MesosClient.synthesize_url.
    destruct (str_truthy url); [|reflexivity]. cbn [negb].
    destruct (str_truthy job && negb (str_truthy role)); reflexivity. }
  destruct (MesosClient.synthesize_url url role job) as [[found|msg|msg|e] eff];
    cbn [fst snd] in *.
  - destruct found as [[|a found]|];
      cbn [str_truthy fst snd MesosClient.opened MesosClient.logged default from_option id];
      rewrite ?Hopened.
    + split; [reflexivity|]. split; [cbn; lia|]. split.
      * intros tab Htab. inversion Htab.
      * intros msg. split; discriminate.
    + destruct open_browser; cbn [app length].
      * split; [discriminate|]. split; [lia|]. split.
        -- intros tab Htab. apply list_elem_of_singleton in Htab. subst tab.
           split; [reflexivity|]. apply elem_of_app. right. apply list_elem_of_singleton.
           reflexivity.
        -- intros msg. split; discriminate.
      * split; [reflexivity|]. split; [lia|]. split.
        -- intros tab Htab. inversion Htab.
        -- intros msg. split; discriminate.
    + split; [reflexivity|]. split; [cbn; lia|]. split.
      * intros tab Htab. inversion Htab.
      * intros msg. split; discriminate.
  - rewrite Hopened. split; [reflexivity|]. split; [cbn; lia|]. split.
    + intros tab Htab. inversion Htab.
    + intros msg'. split; intros Heq; injection Heq as ->; reflexivity.
  - rewrite Hopened. split; [reflexivity|]. split; [cbn; lia|]. split.
    + intros tab Htab. inversion Htab.
    + intros msg'. split; discriminate.
  - rewrite Hopened. split; [reflexivity|]. split; [cbn; lia|]. split.
    + intros tab Htab. inversion Htab.
    + intros msg'. split; discriminate.
Qed.

Lemma handle_open_witness :
  @MesosClient.handle_open ClientSamples.lib true (Some "http://smf1:8081") (Some "www")
    None
  = (MesosClient.Done tt,
     MesosClient.mkEffects [("info", "Job url: http://smf1:8081/scheduler/www")]
                           ["http://smf1:8081/scheduler/www"])
  /\ length (MesosClient.opened
               (snd (@MesosClient.handle_open ClientSamples.lib true
                       (Some "http://smf1:8081") (Some "www") None))) <= 1.
Proof.
  split; [vm_compute; reflexivity|].
  apply (@handle_open_spec ClientSamples.lib true (Some "http://smf1:8081") (Some "www") None).
Defined.

(** ** ssh *)

Lemma add_tunnels_done {P : PyLib} (task : MesosClient.scheduled_task)
    (tunnels forwards : list string) (ssh_command : list string) :
  Forall2 (fun tunnel forward =>
             exists port name local remote,
               str_split ":" tunnel = [port; name]
               /\ int_ port = Some local
               /\ MesosClient.assignedPorts task !! name = Some remote
               /\ forward = format_d local +:+ ":" +:+ MesosClient.slaveHost task
                            +:+ ":" +:+ format_d remote)
          tunnels forwards ->
  MesosClient.add_tunnels task tunnels ssh_command
  = MesosClient.Done (ssh_command ++ concat (map (fun forward => ["-L"; forward]) forwards)).
Proof.
  intros Hall. revert ssh_command.
  induction Hall as [|tunnel forward tunnels forwards Hhead _ IH]; intros ssh_command.
  - cbn. rewrite app_nil_r. reflexivity.
  - destruct Hhead as (port & name & local & remote & Hsplit & Hint & Hport & ->).
    cbn [MesosClient.add_tunnels]. rewrite Hsplit, Hint, Hport, IH.
    cbn [map concat]. rewrite <- app_assoc. reflexivity.
Qed.

Lemma add_tunnels_die {P : PyLib} (task : MesosClient.scheduled_task)
    (tunnels : list string) (ssh_command : list string) :
  Exists (fun tunnel =>
            forall port name local,
              str_split ":" tunnel = [port; name] -> int_ port = Some local ->
              MesosClient.assignedPorts task !! name = None)
         tunnels ->
  exists msg, MesosClient.add_tunnels task tunnels ssh_command = MesosClient.Die msg.
Proof.
  intros Hbad. revert ssh_command.
  induction Hbad as [tunnel tunnels Hhead|tunnel tunnels _ IH]; intros ssh_command;
    cbn [MesosClient.add_tunnels].
  - destruct (str_split ":" tunnel) as [|port [|name [|? ?]]]; try (eexists; reflexivity).
    destruct (int_ port) as [local|] eqn:Hint; [|eexists; reflexivity].
    rewrite (Hhead port name local eq_refl Hint). eexists. reflexivity.
  - destruct (str_split ":" tunnel) as [|port [|name [|? ?]]]; try (eexists; reflexivity).
    destruct (int_ port) as [local|]; [|eexists; reflexivity].
    destruct (MesosClient.assignedPorts task !! name); [apply IH | eexists; reflexivity].
Qed.

(** X9.  For a shard number [int] accepts and a successful response with a
    first task: when every tunnel is [PORT:NAME] with a numeric [PORT] and a
    [NAME] among the assigned ports of the task, [ssh] runs [ssh -t] with
    one [-L PORT:host:assigned] pair per tunnel, in order, then the login
    (the [--user] option, else the role of the task) at the slave host and
    the substituted command ([bash] when there are no arguments); when some
    tunnel is not of that form or names no assigned port, it dies and runs
    nothing. *)
Theorem ssh_command_line {P : PyLib} (query : string -> string -> Z -> MesosClient.response)
    (substitute : string -> MesosClient.scheduled_task -> string)
    (tunnels : list string) (ssh_user : option string) (role job shard : string)
    (args : list string) (shard_id : Z) (task : MesosClient.scheduled_task)
    (others : list MesosClient.scheduled_task) :
  int_ shard = Some shard_id ->
  MesosClient.responseCode (query role job shard_id) = true ->
  MesosClient.tasks (query role job shard_id) = task :: others ->
  let login := if str_truthy ssh_user then default EmptyString ssh_user
               else MesosClient.owner_role task in
  let remote_cmd := match args with [] => "bash" | _ => str_join " " args end in
  (forall forwards,
     Forall2 (fun tunnel forward =>
                exists port name local remote,
                  str_split ":" tunnel = [port; name]
                  /\ int_ port = Some local
                  /\ MesosClient.assignedPorts task !! name = Some remote
                  /\ forward = format_d local +:+ ":" +:+ MesosClient.slaveHost task
                               +:+ ":" +:+ format_d remote)
             tunnels forwards ->
     MesosClient.ssh query substitute tunnels ssh_user role job shard args
     = MesosClient.Done
         (["ssh"; "-t"] ++ concat (map (fun forward => ["-L"; forward]) forwards)
          ++ [login +:+ "@" +:+ MesosClient.slaveHost task; substitute remote_cmd task]))
  /\ (Exists (fun tunnel =>
                forall port name local,
                  str_split ":" tunnel = [port; name] -> int_ port = Some local ->
                  MesosClient.assignedPorts task !! name = None)
             tunnels ->
      exists msg,
        MesosClient.ssh query substitute tunnels ssh_user role job shard args
        = MesosClient.Die msg).
Proof.
  intros Hshard Hcode Htasks login remote_cmd. unfold MesosClient.ssh.
  rewrite Hshard, Hcode, Htasks. cbn [negb]. split.
  - intros forwards Hall. rewrite (add_tunnels_done _ _ _ _ Hall).
    rewrite <- app_assoc. reflexivity.
  - intros Hbad. destruct (add_tunnels_die task tunnels ["ssh"; "-t"] Hbad) as [msg ->].
    exists msg. reflexivity.
Qed.

Lemma ssh_command_line_witness :
  @MesosClient.ssh ClientSamples.lib ClientSamples.query ClientSamples.substitute
    ["8080:http"] None "www" "frontend" "3" []
  = MesosClient.Done ["ssh"; "-t"; "-L"; "8080:slave12:31337"; "www@slave12";
                      "cd sandbox && bash"]
  /\ exists msg,
       @MesosClient.ssh ClientSamples.lib ClientSamples.query ClientSamples.substitute
         ["8080:http"; "9090:admin"] None "www" "frontend" "3" []
       = MesosClient.Die msg.
Proof.
  split.
  - apply (proj1 (@ssh_command_line ClientSamples.lib ClientSamples.query
                    ClientSamples.substitute ["8080:http"] None "www" "frontend" "3" []
                    3%Z ClientSamples.task [] eq_refl eq_refl eq_refl)
             ["8080:slave12:31337"]).
    repeat constructor. exists "8080", "http", 8080%Z, 31337%Z.
    repeat split; vm_compute; reflexivity.
  - apply (proj2 (@ssh_command_line ClientSamples.lib ClientSamples.query
                    ClientSamples.substitute ["8080:http"; "9090:admin"] None "www"
                    "frontend" "3" [] 3%Z ClientSamples.task [] eq_refl eq_refl eq_refl)).
    constructor 2. constructor. intros port name local Hsplit _.
    vm_compute in Hsplit. injection Hsplit as <- <-. vm_compute. reflexivity.
Defined.

(** * Further properties of the loader *)

(** ** Ports, reference by reference *)

Lemma process_ports_scan {L : Library} (process : Process) :
  ThermosProcessWrapper.ports (mkProcessWrapper _ process)
  = ThermosProcessWrapper.scan (mkRef [Dereference "thermos"; Dereference "ports"])
      (snd (process_interpolate process)) [].
Proof.
  unfold ThermosProcessWrapper.ports. rewrite from_address_thermos_ports.
  cbn [mbind result_bind _process].
  destruct (process_interpolate process) as [p uninterp]. reflexivity.
Qed.

Lemma process_ports_found {L : Library} (process : Process) :
  Forall index_led (snd (process_interpolate process)) ->
  ThermosProcessWrapper.ports (mkProcessWrapper _ process)
  = Ok (omap port_name (snd (process_interpolate process))).
Proof.
  intros Hall. rewrite process_ports_scan.
  apply (proj1 (scan_spec _ [])). exact Hall.
Qed.

Lemma process_ports_assertion {L : Library} (process : Process) :
  Exists dereference_led (snd (process_interpolate process)) ->
  ThermosProcessWrapper.ports (mkProcessWrapper _ process) = Raise (AssertionError "").
Proof.
  intros Hbad. rewrite process_ports_scan.
  apply (proj2 (scan_spec _ [])). exact Hbad.
Qed.

Lemma update_ports_assertion {L : Library} (procs : list Process) (ports : gset string) :
  Exists (fun process => Exists dereference_led (snd (process_interpolate process))) procs ->
  ThermosTaskWrapper.update_ports procs ports = Raise (AssertionError "").
Proof.
  intros Hbad. revert ports.
  induction Hbad as [process procs Hhead|process procs _ IH]; intros ports;
    cbn [ThermosTaskWrapper.update_ports].
  - rewrite (process_ports_assertion _ Hhead). reflexivity.
  - destruct (index_or_dereference_led (snd (process_interpolate process))) as [Hok|Hhead].
    + rewrite (process_ports_found _ Hok). cbn [mbind result_bind]. apply IH.
    + rewrite (process_ports_assertion _ Hhead). reflexivity.
Qed.

Lemma update_ports_found {L : Library} (procs : list Process) (ports : gset string) :
  Forall (fun process => Forall index_led (snd (process_interpolate process))) procs ->
  ThermosTaskWrapper.update_ports procs ports
  = Ok (ports ∪ ⋃ (list_to_set <$>
                     ((fun process => omap port_name (snd (process_interpolate process)))
                        <$> procs))).
Proof.
  intros Hall. apply update_ports_spec.
  induction Hall as [|process procs Hhead _ IH]; [constructor|].
  rewrite fmap_cons. constructor; [apply process_ports_found; exact Hhead | exact IH].
Qed.

(** X10.  For a task with processes: when every unresolved reference under
    [thermos.ports], in every process, has an index right after the prefix,
    [ports()] returns the set of the names these references carry, a name
    being in it exactly when some process has a reference that names it;
    when some process has a reference with a dereference there, [ports()]
    fails with the scanner's assertion. *)
Theorem task_ports_by_reference {L : Library} (self : ThermosTaskWrapper) :
  let ti := fst (interpolate (_task self)) in
  has_processes ti = true ->
  (Forall (fun process => Forall index_led (snd (process_interpolate process)))
          (processes ti) ->
   exists ports : gset string,
     ThermosTaskWrapper.ports self = Ok ports
     /\ forall name,
          name ∈ ports
          <-> exists process ref,
                process ∈ processes ti
                /\ ref ∈ snd (process_interpolate process)
                /\ port_name ref = Some name)
  /\ (Exists (fun process => Exists dereference_led (snd (process_interpolate process)))
             (processes ti) ->
      ThermosTaskWrapper.ports self = Raise (AssertionError "")).
Proof.
  intros ti Hhas. unfold ThermosTaskWrapper.ports. subst ti.
  destruct (interpolate (_task self)) as [ti refs]. cbn [fst] in *. rewrite Hhas.
  split.
  - intros Hall. rewrite (update_ports_found _ _ Hall). eexists. split; [reflexivity|].
    intros name. rewrite elem_of_union, elem_of_union_list. split.
    + intros [Hempty|(X & HX & Hname)]; [inversion Hempty|].
      apply list_elem_of_fmap in HX as (names & -> & Hnames).
      apply list_elem_of_fmap in Hnames as (process & -> & Hprocess).
      apply elem_of_list_to_set, list_elem_of_omap in Hname as (ref & Href & Hport).
      exists process, ref. auto.
    + intros (process & ref & Hprocess & Href & Hport). right.
      exists (list_to_set (omap port_name (snd (process_interpolate process)))). split.
      * apply list_elem_of_fmap. eexists. split; [reflexivity|].
        apply list_elem_of_fmap. eexists. split; [reflexivity | exact Hprocess].
      * apply elem_of_list_to_set, list_elem_of_omap. eauto.
  - intros Hbad. apply update_ports_assertion. exact Hbad.
Qed.

Lemma task_ports_by_reference_witness :
  (exists ports : gset string,
     ThermosTaskWrapper.ports (mkTaskWrapper _ Samples.web) = Ok ports
     /\ "admin" ∈ ports)
  /\ ThermosTaskWrapper.ports (mkTaskWrapper _ LoaderSamples.probes)
     = Raise (AssertionError "").
Proof.
  assert (Hserver : Forall index_led
            (snd (@process_interpolate Reference.library
                    (Reference.mkObject Samples.server [])))).
  { vm_compute. repeat constructor; intros c rest Hc; vm_compute in Hc;
      try discriminate; injection Hc as <- <-; eauto. }
  assert (Hcheck : Forall index_led
            (snd (@process_interpolate Reference.library
                    (Reference.mkObject
                       (Reference.process_doc "check" "ping {{thermos.ports[http]}}") [])))).
  { vm_compute. repeat constructor; intros c rest Hc; vm_compute in Hc;
      try discriminate; injection Hc as <- <-; eauto. }
  assert (Hhealth : Exists dereference_led
            (snd (@process_interpolate Reference.library
                    (Reference.mkObject Samples.health [])))).
  { vm_compute. constructor. exists "health", [Dereference "sub"]. reflexivity. }
  split.
  - destruct (proj1 (task_ports_by_reference (mkTaskWrapper _ Samples.web) eq_refl))
      as (ports & Hports & Hin).
    + exact (Forall_cons_2 _ _ _ Hserver (Forall_cons_2 _ _ _ Hcheck (Forall_nil_2 _))).
    + exists ports. split; [exact Hports|]. apply Hin.
      exists (Reference.mkObject Samples.server []),
             (mkRef [Dereference "thermos"; Dereference "ports"; Index "admin"]).
      split; [|split; [|reflexivity]].
      * apply elem_of_cons. left. reflexivity.
      * apply elem_of_cons. right. apply elem_of_cons. left. reflexivity.
  - apply (proj2 (task_ports_by_reference (mkTaskWrapper _ LoaderSamples.probes) eq_refl)).
    apply Exists_cons_tl. apply Exists_cons_hd. exact Hhealth.
Defined.

(** Either every process of a list has only index-led references under the
    prefix, or one of them has a dereference-led one. *)
Lemma processes_index_or_dereference_led {L : Library} (procs : list Process) :
  Forall (fun process => Forall index_led (snd (process_interpolate process))) procs
  \/ Exists (fun process => Exists dereference_led (snd (process_interpolate process))) procs.
Proof.
  induction procs as [|process procs [IH|IH]].
  - left. constructor.
  - destruct (index_or_dereference_led (snd (process_interpolate process))) as [Hok|Hbad].
    + left. constructor; assumption.
    + right. apply Exists_cons_hd. exact Hbad.
  - right. apply Exists_cons_tl. exact IH.
Qed.

(** X11.  [ports()] does not depend on the order of the processes: two tasks
    whose interpolations have the same processes, in any order, have the same
    ports, and fail alike. *)
Theorem task_ports_permutation {L : Library} (self self' : ThermosTaskWrapper) :
  has_processes (fst (interpolate (_task self)))
  = has_processes (fst (interpolate (_task self'))) ->
  processes (fst (interpolate (_task self)))
  ≡ₚ processes (fst (interpolate (_task self'))) ->
  ThermosTaskWrapper.ports self = ThermosTaskWrapper.ports self'.
Proof.
  unfold ThermosTaskWrapper.ports.
  destruct (interpolate (_task self)) as [ti refs],
           (interpolate (_task self')) as [ti' refs']. cbn [fst].
  intros <- Hperm. destruct (has_processes ti); [|reflexivity].
  destruct (processes_index_or_dereference_led (processes ti)) as [Hall|Hbad].
  - rewrite (update_ports_found _ _ Hall).
    rewrite Hperm in Hall. rewrite (update_ports_found _ _ Hall).
    f_equal. f_equal. apply set_eq. intros name. rewrite !elem_of_union_list.
    split; intros (X & HX & Hname); exists X; (split; [|exact Hname]).
    + rewrite <- Hperm. exact HX.
    + rewrite Hperm. exact HX.
  - rewrite (update_ports_assertion _ _ Hbad).
    rewrite Hperm in Hbad. rewrite (update_ports_assertion _ _ Hbad). reflexivity.
Qed.

Lemma task_ports_permutation_witness :
  ThermosTaskWrapper.ports (mkTaskWrapper _ Samples.web)
  = ThermosTaskWrapper.ports (mkTaskWrapper _ LoaderSamples.web_swapped).
Proof.
  apply (task_ports_permutation (mkTaskWrapper _ Samples.web)
           (mkTaskWrapper _ LoaderSamples.web_swapped)).
  - reflexivity.
  - exact (perm_swap _ _ []).
Defined.

(** ** to_file *)



(** ** from_file and the file system *)




(** ** Lenient loading *)

(** X13.  With [strict=False] and no other keyword but [bindings], [export]
    never raises: whatever the source does, and however its evaluation ends,
    every task it passed to [export] so far is in the task list, in call
    order, wrapped with the bindings bound, after the tasks that were there
    before. *)
Theorem lenient_export_collects {L : Library} (code : script) (ns : dictref)
    (kw : kwargs) (st st' : store) (tc tc' : ThermosConfigLoader)
    (log log' : list event) (r : result unit) :
  kw_strict kw = Some false ->
  kw_other kw = [] ->
  ThermosConfigLoader.run code ns kw st tc log = (r, st', tc', log') ->
  exists evs,
    log' = log ++ evs
    /\ ThermosConfigLoader.tasks tc'
       = ThermosConfigLoader.tasks tc
         ++ map (fun ev => Some (mkTaskWrapper _
                                   (bound_template (event_arg ev) (kw_bindings kw)))) evs.
Proof.
  intros Hstrict Hother. revert st tc log.
  induction code as [|e|name k IH|name v k IH|name k IH|f arg k IH];
    intros st tc log Hrun; cbn [ThermosConfigLoader.run] in Hrun.
  - injection Hrun as <- <- <- <-. exists []. rewrite !app_nil_r. split; reflexivity.
  - injection Hrun as <- <- <- <-. exists []. rewrite !app_nil_r. split; reflexivity.
  - eapply IH. eassumption.
  - eapply IH. eassumption.
  - destruct (ThermosConfigLoader.dict_read ns st !! name); eapply IH; eassumption.
  - destruct f; try (eapply IH; eassumption).
    unfold ThermosConfigLoader.export in Hrun.
    rewrite (new_eq _ _ Hother), init_eq, Hstrict in Hrun.
    change (default true (Some false)) with false in Hrun.
    rewrite andb_false_r in Hrun. cbn [mbind result_bind] in Hrun.
    destruct (IH _ _ _ _ Hrun) as (evs & -> & Htasks).
    exists (ExportCall arg :: evs). split; [rewrite <- app_assoc; reflexivity|].
    rewrite Htasks. unfold ThermosConfigLoader.tasks, ThermosConfigLoader.add_task.
    cbn [_exported_tasks map event_arg]. rewrite <- app_assoc. reflexivity.
Qed.

Lemma lenient_export_collects_witness :
  exists evs,
    [ExportCall Samples.bare; ExportCall Samples.greeter] = [] ++ evs
    /\ ThermosConfigLoader.tasks
         (mkLoader _ [Some (mkTaskWrapper _ Samples.bare);
                      Some (mkTaskWrapper _ Samples.greeter)])
       = ThermosConfigLoader.tasks ThermosConfigLoader.__init__
         ++ map (fun ev => Some (mkTaskWrapper _
                                   (bound_template (event_arg ev)
                                      (kw_bindings Samples.lenient)))) evs.
Proof.
  apply (lenient_export_collects Samples.two_exports SchemaRef Samples.lenient
           (mkStore {[ "export" := VExport ]} ∅) (mkStore {[ "export" := VExport ]} ∅)
           ThermosConfigLoader.__init__
           (mkLoader _ [Some (mkTaskWrapper _ Samples.bare);
                        Some (mkTaskWrapper _ Samples.greeter)])
           [] [ExportCall Samples.bare; ExportCall Samples.greeter] (Ok tt)
           eq_refl eq_refl).
  reflexivity.
Defined.
